(** * mini-assembly-parser: the parser and interpreter of [mini_assembler.py]

    A shallow embedding of [Instruction], [AssemblyParser.parse_assembly],
    [AssemblyParser.instruction_generator] and [AssemblyParser.run], and the
    properties of the specification stated over it.

    Modelling conventions.
    - Source text is a list of lines as [for line in file] yields them (each
      line keeps its newline); characters are ASCII.
    - Python integers are [Z].  A variable holds [None] or an integer:
      [option Z].  [self.variables] is a dict from names to such values:
      [gmap string (option Z)].
    - [self.instructions] is a dict whose insertion order is observed by the
      numbering check of [parse_assembly], so it is an association list kept
      in insertion order.
    - An exception is a value of [exn]; a function that may raise returns a
      sum or a dedicated result type. *)

From Stdlib Require Import ZArith Ascii String List.
From stdpp Require Import gmap strings list fin_maps.

Local Open Scope string_scope.
Local Open Scope list_scope.
Local Open Scope Z_scope.

(** ** Text primitives used by the regular expressions *)

Module Text.

(** [[a-zA-Z]] *)
Definition is_letter (c : ascii) : bool :=
  let n := nat_of_ascii c in
  ((97 <=? n)%nat && (n <=? 122)%nat) || ((65 <=? n)%nat && (n <=? 90)%nat).

(** [\d], on ASCII text *)
Definition is_digit (c : ascii) : bool :=
  let n := nat_of_ascii c in (48 <=? n)%nat && (n <=? 57)%nat.

(** The characters [str.strip()] removes, on ASCII text: tab, line feed,
    vertical tab, form feed, carriage return, the four separators
    0x1c..0x1f and the space. *)
Definition is_space (c : ascii) : bool :=
  let n := nat_of_ascii c in
  ((9 <=? n)%nat && (n <=? 13)%nat) || ((28 <=? n)%nat && (n <=? 32)%nat).

Definition is_newline (c : ascii) : bool := (nat_of_ascii c =? 10)%nat.

(** [s.startswith(p)], returning what follows the prefix. *)
Fixpoint strip_prefix (p s : string) : option string :=
  match p, s with
  | EmptyString, _ => Some s
  | String a p', String b s' =>
      if Ascii.eqb a b then strip_prefix p' s' else None
  | String _ _, EmptyString => None
  end.

Definition startswith (s p : string) : bool :=
  match strip_prefix p s with Some _ => true | None => false end.

(** The longest prefix whose characters satisfy [f], and the rest. *)
Fixpoint span (f : ascii -> bool) (s : string) : string * string :=
  match s with
  | EmptyString => (EmptyString, EmptyString)
  | String c s' =>
      if f c then let '(a, b) := span f s' in (String c a, b)
      else (EmptyString, s)
  end.

Fixpoint lstrip (s : string) : string :=
  match s with
  | EmptyString => EmptyString
  | String c s' => if is_space c then lstrip s' else s
  end.

Fixpoint rstrip (s : string) : string :=
  match s with
  | EmptyString => EmptyString
  | String c s' =>
      match rstrip s' with
      | EmptyString => if is_space c then EmptyString else String c EmptyString
      | r => String c r
      end
  end.

(** [s.strip()] *)
Definition strip (s : string) : string := rstrip (lstrip s).

Definition digit_value (c : ascii) : Z := Z.of_nat (nat_of_ascii c) - 48.

Fixpoint int_acc (acc : Z) (s : string) : Z :=
  match s with
  | EmptyString => acc
  | String c s' => int_acc (10 * acc + digit_value c) s'
  end.

(** [int(s)] for a string of decimal digits (all a [\d+] group holds). *)
Definition int (s : string) : Z := int_acc 0 s.

End Text.

(** ** Regular expressions

    The patterns of the program are sequences of literal text, one-letter
    groups, a back-reference to group 1, digit groups and a final group of
    [.*].
    A pattern is a list of such items; matching is left to right.  [\d+] is
    greedy and in every pattern of the program it is followed by the end of
    the pattern or by a literal that starts with a non-digit, so taking the
    longest run of digits is what the regular expression engine does. *)

Module Re.

Inductive item :=
| Lit (s : string)      (* literal text *)
| Letter                (* ([a-zA-Z]) *)
| Back1                 (* \1 *)
| Digits                (* (\d+) *)
| Rest.                 (* a group of .* : any characters but a newline *)

Definition pattern := list item.

(** Matches [p] at the start of [s]; [groups] are the groups captured so
    far, in order.  Returns the groups and the unmatched remainder. *)
Fixpoint match_items (p : pattern) (groups : list string) (s : string)
  : option (list string * string) :=
  match p with
  | [] => Some (groups, s)
  | Lit l :: p' =>
      match Text.strip_prefix l s with
      | Some s' => match_items p' groups s'
      | None => None
      end
  | Letter :: p' =>
      match s with
      | String c s' =>
          if Text.is_letter c
          then match_items p' (groups ++ [String c EmptyString]) s'
          else None
      | EmptyString => None
      end
  | Back1 :: p' =>
      match groups with
      | g :: _ =>
          match Text.strip_prefix g s with
          | Some s' => match_items p' groups s'
          | None => None
          end
      | [] => None
      end
  | Digits :: p' =>
      let '(d, s') := Text.span Text.is_digit s in
      match d with
      | EmptyString => None
      | _ => match_items p' (groups ++ [d]) s'
      end
  | Rest :: p' =>
      let '(r, s') := Text.span (fun c => negb (Text.is_newline c)) s in
      match_items p' (groups ++ [r]) s'
  end.

(** [re.match(p, s)]: the groups, when [p] matches a prefix of [s]. *)
Definition re_match (p : pattern) (s : string) : option (list string) :=
  match match_items p [] s with
  | Some (groups, _) => Some groups
  | None => None
  end.

(** [re.fullmatch(p, s)]: the groups, when [p] matches all of [s]. *)
Definition fullmatch (p : pattern) (s : string) : option (list string) :=
  match match_items p [] s with
  | Some (groups, EmptyString) => Some groups
  | _ => None
  end.

(** [match[n]] for [n >= 1]. *)
Definition group (m : list string) (n : nat) : option string :=
  nth_error m (pred n).

End Re.

(** ** Exceptions *)

Inductive exn :=
| SyntaxError_no_line_number          (* "No line number provided" *)
| SyntaxError_duplicate               (* "Duplicate line number" *)
| SyntaxError_no_match (code : string)
    (* "No matching instruction could be found for the line: ..." *)
| SyntaxError_numbering
    (* "Line numbers must range from one upwards and increment by one each
       time" *)
| KeyError_line (i : Z)               (* "Jumped to line: i which does not exist" *)
| TypeError_inc (i : Z)
    (* "Incrementing a variable with no default on line: i" *)
| TypeError_dec (i : Z)
    (* "Decrementing a variable with no default on line: i" *)
| KeyError_name (v : string)          (* [self.variables[v]], [v] not a key *)
| TypeError_operand                   (* arithmetic on [None] *)
| TypeError_send                      (* [send] to a generator not yet started *)
| AttributeError                      (* a payload attribute the instruction lacks *)
| StopIteration.                      (* [generator.send] on exhaustion *)

(** ** class Instruction *)

Import Re.

Inductive Key :=
| jump_zero | inc | dec | jump | halt | set_zero | transfer | add | abs_diff.

#[global] Instance Key_eq_dec : EqDecision Key.
Proof. solve_decision. Defined.

(** The attributes [value_one], [value_two], [value_three] and [jump_to]
    exist only for some keys: [None] is an absent attribute. *)
Record Instruction := {
  line_no : Z;
  key : Key;
  value_one : option string;
  value_two : option string;
  value_three : option string;
  jump_to : option Z
}.

Definition key_in (k : Key) (ks : list Key) : bool := bool_decide (k ∈ ks).

(** Attribute assignment, [self.<attribute> = v]. *)
Definition set_value_one (v : option string) (i : Instruction) : Instruction :=
  {| line_no := line_no i; key := key i; value_one := v;
     value_two := value_two i; value_three := value_three i;
     jump_to := jump_to i |}.
Definition set_value_two (v : option string) (i : Instruction) : Instruction :=
  {| line_no := line_no i; key := key i; value_one := value_one i;
     value_two := v; value_three := value_three i; jump_to := jump_to i |}.
Definition set_value_three (v : option string) (i : Instruction) : Instruction :=
  {| line_no := line_no i; key := key i; value_one := value_one i;
     value_two := value_two i; value_three := v; jump_to := jump_to i |}.
Definition set_jump_to (v : option Z) (i : Instruction) : Instruction :=
  {| line_no := line_no i; key := key i; value_one := value_one i;
     value_two := value_two i; value_three := value_three i; jump_to := v |}.

(** [Instruction.__init__(line_no, key, match)]: one [if] after the other,
    each setting the attributes of its keys.  Every pattern of the two
    tables has the groups its key reads here. *)
Definition Instruction_init (n : Z) (k : Key) (m : list string) : Instruction :=
  let self := {| line_no := n; key := k; value_one := None;
                 value_two := None; value_three := None; jump_to := None |} in
  let self :=
    if key_in k [jump_zero]
    then set_jump_to (Text.int <$> group m 2) (set_value_one (group m 1) self)
    else self in
  let self :=
    if key_in k [inc; dec; set_zero]
    then set_value_one (group m 1) self
    else self in
  let self :=
    if key_in k [jump]
    then set_jump_to (Text.int <$> group m 1) self
    else self in
  let self :=
    if key_in k [transfer; add]
    then set_value_two (group m 2) (set_value_one (group m 1) self)
    else self in
  if key_in k [abs_diff]
  then set_value_three (group m 3)
         (set_value_two (group m 2) (set_value_one (group m 1) self))
  else self.

(** ** A dict in insertion order *)

Module Dict.
Section Dict.
Context {V : Type}.

(** [d.get(k)] *)
Fixpoint get (k : Z) (d : list (Z * V)) : option V :=
  match d with
  | [] => None
  | (k', v) :: d' => if Z.eqb k' k then Some v else get k d'
  end.

(** [d[k] = v]: an existing key keeps its place, a new one goes last. *)
Fixpoint set (k : Z) (v : V) (d : list (Z * V)) : list (Z * V) :=
  match d with
  | [] => [(k, v)]
  | (k', v') :: d' =>
      if Z.eqb k' k then (k', v) :: d' else (k', v') :: set k v d'
  end.

(** [list(d.keys())] and [d.values()] *)
Definition keys (d : list (Z * V)) : list Z := map fst d.
Definition values (d : list (Z * V)) : list V := map snd d.
End Dict.
End Dict.

(** ** class AssemblyParser *)

(** The two class attributes, in the order the dict literals list them. *)
Definition basic_instructions : list (Key * pattern) :=
  [ (jump_zero, [Lit "if ("; Letter; Lit " == 0) goto "; Digits]);
    (inc,       [Letter; Lit " = "; Back1; Lit " + 1"]);
    (dec,       [Letter; Lit " = "; Back1; Lit " - 1"]);
    (jump,      [Lit "goto "; Digits]);
    (halt,      [Lit "stop"]);
    (set_zero,  [Letter; Lit " = 0"]) ].

Definition ext_instructions : list (Key * pattern) :=
  [ (transfer, [Letter; Lit " = "; Letter]);
    (add,      [Letter; Lit " = "; Back1; Lit " + "; Letter]);
    (abs_diff, [Letter; Lit " = abs("; Letter; Lit " - "; Letter; Lit ")"]) ].

(** The pattern of a numbered line: an opening parenthesis, [\d+], a closing
    parenthesis, a space, and the rest of the line. *)
Definition line_pattern : pattern := [Lit "("; Digits; Lit ") "; Rest].

Record AssemblyParser := {
  file : list string;                          (* the lines of the file *)
  ext : Z;
  instructions : list (Z * Instruction);
  start_state : option (gmap string (option Z));
  variables : gmap string (option Z)           (* set by [parse_assembly] *)
}.

(** [AssemblyParser.__init__(file, start_state, ext)]: the [ext] argument is
    not stored, the attribute is set to the constant 0. *)
Definition AssemblyParser_init (file : list string)
    (start_state : option (gmap string (option Z))) (ext : Z)
  : AssemblyParser :=
  {| file := file; ext := 0; instructions := []; start_state := start_state;
     variables := ∅ |}.

(** The default of the [ext] argument. *)
Definition default_ext : Z := -1.

(** *** parse_assembly *)

(** [for key, regex in self.basic_instructions.items()]: the first entry
    whose pattern matches the whole of [code]. *)
Fixpoint find_basic (table : list (Key * pattern)) (code : string)
  : option (Key * list string) :=
  match table with
  | [] => None
  | (k, regex) :: table' =>
      match fullmatch regex code with
      | Some instruction_match => Some (k, instruction_match)
      | None => find_basic table' code
      end
  end.

(** [for i, (key, regex) in enumerate(self.ext_instructions.items())], left
    by [break] at the first index with [not i <= self.ext]. *)
Fixpoint find_ext (ext i : Z) (table : list (Key * pattern)) (code : string)
  : option (Key * list string) :=
  match table with
  | [] => None
  | (k, regex) :: table' =>
      if negb (i <=? ext) then None
      else match fullmatch regex code with
           | Some instruction_match => Some (k, instruction_match)
           | None => find_ext ext (i + 1) table' code
           end
  end.

(** The instruction a code fragment is recognised as, under [self.ext]. *)
Definition recognise (ext : Z) (code : string) : option (Key * list string) :=
  match find_basic basic_instructions code with
  | Some r => Some r
  | None => find_ext ext 0 ext_instructions code
  end.

(** [line.startswith("//")] *)
Definition is_comment (line : string) : bool := Text.startswith line "//".

(** [re.match] of the line pattern: [line_match[1]] and [line_match[2]]. *)
Definition match_line (line : string) : option (string * string) :=
  match re_match line_pattern line with
  | Some [digits; code] => Some (digits, code)
  | _ => None
  end.

(** The body of the loop over the lines, for a line that is not a
    comment. *)
Definition parse_line (ext : Z) (instructions : list (Z * Instruction))
    (line : string) : exn + list (Z * Instruction) :=
  match match_line line with
  | None => inl SyntaxError_no_line_number
  | Some (digits, code) =>
      let line_number := Text.int digits in
      match Dict.get line_number instructions with
      | Some _ => inl SyntaxError_duplicate
      | None =>
          match recognise ext (Text.strip code) with
          | Some (k, instruction_match) =>
              inr (Dict.set line_number
                     (Instruction_init line_number k instruction_match)
                     instructions)
          | None => inl (SyntaxError_no_match (Text.strip code))
          end
      end
  end.

(** [for line in file: ...] *)
Fixpoint parse_lines (ext : Z) (lines : list string)
    (instructions : list (Z * Instruction)) : exn + list (Z * Instruction) :=
  match lines with
  | [] => inr instructions
  | line :: lines' =>
      if is_comment line then parse_lines ext lines' instructions
      else match parse_line ext instructions line with
           | inl e => inl e
           | inr instructions' => parse_lines ext lines' instructions'
           end
  end.

(** The payload attributes an instruction has, among [value_one],
    [value_two] and [value_three]. *)
Definition payload (i : Instruction) : list string :=
  omap id [value_one i; value_two i; value_three i].

(** The set of the variables mentioned in the instructions. *)
Definition mentioned (instructions : list (Z * Instruction)) : gset string :=
  list_to_set (concat (map payload (Dict.values instructions))).

(** [{key: None for key in self.variables}], then the start state written
    over it when it is not empty. *)
Definition initial_variables (names : gset string)
    (start_state : option (gmap string (option Z))) : gmap string (option Z) :=
  let table : gmap string (option Z) := gset_to_gmap None names in
  match start_state with
  | Some st => if bool_decide (st = ∅) then table else st ∪ table
  | None => table
  end.

(** [for i, key in enumerate(keys): if i + 1 != key: raise ...], from index
    [i] on. *)
Fixpoint numbering_ok (i : Z) (keys : list Z) : bool :=
  match keys with
  | [] => true
  | k :: keys' => if negb (i + 1 =? k)%Z then false else numbering_ok (i + 1) keys'
  end.

Definition parse_assembly (self : AssemblyParser) : exn + AssemblyParser :=
  match parse_lines (ext self) (file self) (instructions self) with
  | inl e => inl e
  | inr instructions' =>
      let variables' :=
        initial_variables (mentioned instructions') (start_state self) in
      if numbering_ok 0 (Dict.keys instructions')
      then inr {| file := file self; ext := ext self;
                  instructions := instructions';
                  start_state := start_state self;
                  variables := variables' |}
      else inl SyntaxError_numbering
  end.

(** *** instruction_generator

    The generator object: not yet started, suspended at its [yield] with
    the values of its locals, or returned. *)
Inductive generator :=
| Created (limit : Z)
| Suspended (limit instruction count : Z)
| Finished.

(** [AssemblyParser.instruction_generator(limit)] *)
Definition instruction_generator (limit : Z) : generator := Created limit.

Definition default_limit : Z := 300.

(** The head of the [while True] loop: leave it when [count > limit],
    otherwise yield [instruction].  [None] is the generator returning
    (the caller sees StopIteration). *)
Definition loop_head (limit instruction count : Z) : option Z * generator :=
  if count >? limit then (None, Finished)
  else (Some instruction, Suspended limit instruction count).

(** After the [yield], with the value [jump] it evaluated to. *)
Definition after_yield (limit instruction count : Z) (jump : option Z)
  : option Z * generator :=
  let instruction :=
    match jump with
    | Some j => j - 1
    | None => instruction + 1
    end in
  let count := count + 1 in
  loop_head limit instruction count.

(** [next(generator)], as the [for] statement calls it. *)
Definition next (g : generator) : option Z * generator :=
  match g with
  | Created limit => loop_head limit 1 0
  | Suspended limit instruction count => after_yield limit instruction count None
  | Finished => (None, Finished)
  end.

(** [generator.send(v)]: the next yielded value, or the exception raised. *)
Definition send (g : generator) (v : Z) : (exn + Z) * generator :=
  match g with
  | Created limit => (inl TypeError_send, Created limit)
  | Suspended limit instruction count =>
      match after_yield limit instruction count (Some v) with
      | (Some i, g') => (inr i, g')
      | (None, g') => (inl StopIteration, g')
      end
  | Finished => (inl StopIteration, Finished)
  end.

(** *** run *)

(** How one pass of the body of the [for] loop ends. *)
Inductive step :=
| Raise (e : exn)
| Break
| Continue (g : generator) (variables : gmap string (option Z)).

(** [inst.<attribute>] *)
Definition getattr {A} (a : option A) (k : A -> step) : step :=
  match a with
  | Some x => k x
  | None => Raise AttributeError
  end.

(** [self.variables[name]] *)
Definition getitem (variables : gmap string (option Z)) (name : string)
    (k : option Z -> step) : step :=
  match variables !! name with
  | Some v => k v
  | None => Raise (KeyError_name name)
  end.

(** [generator.send(target)], its value dropped. *)
Definition do_send (g : generator) (target : Z) (k : generator -> step) : step :=
  match send g target with
  | (inr _, g') => k g'
  | (inl e, _) => Raise e
  end.

(** The body of the loop once [inst] is known, at line [i].  The source is
    a sequence of [if inst.key == ...] statements; the keys are distinct and
    nothing assigns [inst.key], so exactly one of them runs. *)
Definition body (i : Z) (inst : Instruction) (g : generator)
    (variables : gmap string (option Z)) : step :=
  match key inst with
  | jump_zero =>
      getattr (value_one inst) (fun x =>
      getitem variables x (fun v =>
      if bool_decide (v = Some 0)
      then getattr (jump_to inst) (fun t =>
           do_send g t (fun g' => Continue g' variables))
      else Continue g variables))
  | inc =>
      getattr (value_one inst) (fun x =>
      getitem variables x (fun v =>
      match v with
      | None => Raise (TypeError_inc i)
      | Some n => Continue g (<[x := Some (n + 1)]> variables)
      end))
  | dec =>
      getattr (value_one inst) (fun x =>
      getitem variables x (fun v =>
      match v with
      | None => Raise (TypeError_dec i)
      | Some n => Continue g (<[x := Some (n - 1)]> variables)
      end))
  | jump =>
      getattr (jump_to inst) (fun t =>
      do_send g t (fun g' => Continue g' variables))
  | halt => Break
  | set_zero =>
      getattr (value_one inst) (fun x =>
      Continue g (<[x := Some 0]> variables))
  | transfer =>
      getattr (value_two inst) (fun y =>
      getitem variables y (fun v =>
      getattr (value_one inst) (fun x =>
      Continue g (<[x := v]> variables))))
  | add =>
      getattr (value_one inst) (fun x =>
      getitem variables x (fun a =>
      getattr (value_two inst) (fun y =>
      getitem variables y (fun b =>
      match a, b with
      | Some a, Some b => Continue g (<[x := Some (a + b)]> variables)
      | _, _ => Raise TypeError_operand
      end))))
  | abs_diff =>
      getattr (value_two inst) (fun y =>
      getitem variables y (fun a =>
      getattr (value_three inst) (fun z =>
      getitem variables z (fun b =>
      match a, b with
      | Some a, Some b =>
          getattr (value_one inst) (fun x =>
          Continue g (<[x := Some (Z.abs (a - b))]> variables))
      | _, _ => Raise TypeError_operand
      end))))
  end.

(** How a call of [run] ends: by the [break] of a [halt], by the generator
    returning (the [for] loop is over), or by an exception.  In the first
    two cases [run] returns normally. *)
Inductive outcome :=
| Halted
| Exhausted
| Raised (e : exn).

(** What a call of [run] leaves: how it ended, the variables, and the
    values [i] took in the [for] loop, in order (the lines the verbose
    mode reports, and the one looked up last). *)
Record result := {
  ended : outcome;
  final : gmap string (option Z);
  visited : list Z
}.

Definition visit (i : Z) (r : result) : result :=
  {| ended := ended r; final := final r; visited := i :: visited r |}.

(** [for i in generator: ...], at most [fuel] calls of [next]; [None] when
    they do not suffice. *)
Fixpoint run_loop (fuel : nat) (instructions : list (Z * Instruction))
    (g : generator) (variables : gmap string (option Z)) : option result :=
  match fuel with
  | O => None
  | S fuel' =>
      match next g with
      | (None, _) =>
          Some {| ended := Exhausted; final := variables; visited := [] |}
      | (Some i, g') =>
          match Dict.get i instructions with
          | None =>
              Some {| ended := Raised (KeyError_line i); final := variables;
                      visited := [i] |}
          | Some inst =>
              match body i inst g' variables with
              | Raise e =>
                  Some {| ended := Raised e; final := variables;
                          visited := [i] |}
              | Break =>
                  Some {| ended := Halted; final := variables;
                          visited := [i] |}
              | Continue g'' variables' =>
                  visit i <$> run_loop fuel' instructions g'' variables'
              end
          end
      end
  end.

(** The calls of [next] a generator can still answer with a value, plus
    the one it answers by returning. *)
Definition calls_left (g : generator) : nat :=
  match g with
  | Created limit => S (Z.to_nat (limit + 1))
  | Suspended limit _ count => S (Z.to_nat (limit - count))
  | Finished => 1
  end.

(** [run] with the generator made for [limit]. *)
Definition run_with_limit (limit : Z) (self : AssemblyParser) : option result :=
  let generator := instruction_generator limit in
  run_loop (calls_left generator) (instructions self) generator (variables self).

(** [AssemblyParser.run()]: the generator is made with its default limit. *)
Definition run (self : AssemblyParser) : option result :=
  run_with_limit default_limit self.

(** ** Vocabulary of the properties *)

(** The line number a line of the file carries, when it is not a comment
    and has one. *)
Definition line_number_of (line : string) : option Z :=
  if is_comment line then None
  else (λ m, Text.int (fst m)) <$> match_line line.

(** The line numbers of a file, in the order of the file. *)
Definition line_numbers (lines : list string) : list Z :=
  omap line_number_of lines.

(** A line with a line number and a statement recognised under [ext]. *)
Definition line_parses (ext : Z) (line : string) : bool :=
  match match_line line with
  | Some (_, code) => bool_decide (is_Some (recognise ext (Text.strip code)))
  | None => false
  end.

(** All the lines that are not comments parse. *)
Definition all_parse (ext : Z) (lines : list string) : Prop :=
  ∀ line, line ∈ lines → is_comment line = false → line_parses ext line = true.

(** The two errors of an uninitialised variable. *)
Definition uninitialised (e : exn) : bool :=
  match e with
  | TypeError_inc _ | TypeError_dec _ => true
  | _ => false
  end.

(** The body of the loop run on a sequence of instructions one after the
    other, each at its line, as long as it neither raises nor breaks. *)
Fixpoint run_bodies (l : list (Z * Instruction)) (g : generator)
    (variables : gmap string (option Z)) : step :=
  match l with
  | [] => Continue g variables
  | (i, inst) :: l' =>
      match body i inst g variables with
      | Continue g' variables' => run_bodies l' g' variables'
      | s => s
      end
  end.

(** An instruction of key [k] on the variable [x]. *)
Definition on_variable (k : Key) (x : string) (inst : Instruction) : Prop :=
  key inst = k ∧ value_one inst = Some x.

(** [run] returned without an exception. *)
Definition returned (r : result) : Prop :=
  ended r = Halted ∨ ended r = Exhausted.

(** The end of a line. *)
Definition newline : string := String (ascii_of_nat 10) EmptyString.

(** The programs the specification gives as examples. *)
Definition counting_loop : list string :=
  [ "(1) x = x + 1" +:+ newline;
    "(2) goto 1" +:+ newline ].

Definition skip_increment : list string :=
  [ "(1) if (x == 0) goto 3" +:+ newline;
    "(2) x = x + 1" +:+ newline;
    "(3) stop" +:+ newline ].

Definition only_stop : list string := [ "(1) stop" +:+ newline ].

Definition x_is_zero : option (gmap string (option Z)) :=
  Some {[ "x" := Some 0 ]}.

(** The boolean form of [all_parse]. *)
Definition all_parseb (ext : Z) (lines : list string) : bool :=
  forallb (λ line, is_comment line || line_parses ext line) lines.

(** Construct, parse, run: what the [__main__] block does with a file. *)
Definition parse_then_run (file : list string)
    (start_state : option (gmap string (option Z))) (ext : Z)
  : exn + option result :=
  match parse_assembly (AssemblyParser_init file start_state ext) with
  | inl e => inl e
  | inr parser => inr (run parser)
  end.

(** One line of each extension form. *)
Definition transfer_line : list string := [ "(1) x = y" +:+ newline ].
Definition add_line : list string := [ "(1) x = x + y" +:+ newline ].
Definition abs_diff_line : list string := [ "(1) z = abs(x - y)" +:+ newline ].

(** The line numbers 1 and 2, the second line first. *)
Definition swapped_lines : list string :=
  [ "(2) stop" +:+ newline;
    "(1) x = 0" +:+ newline ].

(** A jump to a line that does not exist. *)
Definition jump_nowhere : list string := [ "(1) goto 99" +:+ newline ].

(** The [n] lines from line [i] on are instructions of key [k] on [x]. *)
Definition block (k : Key) (x : string) (instructions : list (Z * Instruction))
    (i : Z) (n : nat) : Prop :=
  ∀ j, (j < n)%nat →
       ∃ inst, Dict.get (i + Z.of_nat j) instructions = Some inst
               ∧ on_variable k x inst.

(** Two increments, two decrements, and a stop. *)
Definition up_and_down : list string :=
  [ "(1) x = x + 1" +:+ newline;
    "(2) x = x + 1" +:+ newline;
    "(3) x = x - 1" +:+ newline;
    "(4) x = x - 1" +:+ newline;
    "(5) stop" +:+ newline ].

(** The change an instruction of key [k] makes to an integer. *)
Definition change (k : Key) (d : Z) : Prop :=
  (k = inc ∧ d = 1) ∨ (k = dec ∧ d = -1).

(** An increment, and a test, of a variable no start state sets. *)
Definition increment_only : list string := [ "(1) x = x + 1" +:+ newline ].
Definition test_only : list string := [ "(1) if (x == 0) goto 1" +:+ newline ].

(** ** Vocabulary of the further properties *)

(** The number of groups a pattern captures. *)
Fixpoint groups_of (p : pattern) : nat :=
  match p with
  | [] => 0
  | (Letter | Digits | Rest) :: p' => S (groups_of p')
  | (Lit _ | Back1) :: p' => groups_of p'
  end.

(** The instruction has the attributes that [run] reads for its key. *)
Definition has_attributes (inst : Instruction) : Prop :=
  match key inst with
  | jump_zero => is_Some (value_one inst) ∧ is_Some (jump_to inst)
  | inc | dec | set_zero => is_Some (value_one inst)
  | jump => is_Some (jump_to inst)
  | halt => True
  | transfer | add => is_Some (value_one inst) ∧ is_Some (value_two inst)
  | abs_diff =>
      is_Some (value_one inst) ∧ is_Some (value_two inst)
      ∧ is_Some (value_three inst)
  end.

(** The variable an instruction assigns, if it assigns one. *)
Definition destination (inst : Instruction) : option string :=
  match key inst with
  | jump_zero | jump | halt => None
  | inc | dec | set_zero | transfer | add | abs_diff => value_one inst
  end.

(** What [parse_assembly] leaves to [run]: the instructions and the
    variables, or the exception. *)
Definition parsed (r : exn + AssemblyParser)
  : exn + list (Z * Instruction) * gmap string (option Z) :=
  match r with
  | inl e => inl e
  | inr p => inr (instructions p, variables p)
  end.

(** The lines of a file that are not comments. *)
Definition without_comments (lines : list string) : list string :=
  filter (λ line, is_comment line = false) lines.

(** The keys of the base table. *)
Definition base_keys : list Key := [jump_zero; inc; dec; jump; halt; set_zero].

(** The number 1 twice, the second time with a statement that is none;
    a file with a blank line at its end. *)
Definition repeated_number : list string :=
  [ "(1) stop" +:+ newline;
    "(01) nonsense" +:+ newline ].

Definition blank_at_end : list string :=
  [ "(1) stop" +:+ newline;
    newline ].

(** A start state for a name no instruction of the examples mentions. *)
Definition q_is_seven : option (gmap string (option Z)) :=
  Some {[ "q" := Some 7 ]}.

(** The exceptions [run] raises on purpose or lets through from the
    arithmetic and from the generator. *)
Definition run_error (e : exn) : bool :=
  match e with
  | KeyError_line _ | TypeError_inc _ | TypeError_dec _ | TypeError_operand
  | StopIteration => true
  | _ => false
  end.

(** The instructions have the attributes their keys need and the table has
    every name they mention. *)
Definition ready (instructions : list (Z * Instruction))
    (variables : gmap string (option Z)) : Prop :=
  ∀ i inst, Dict.get i instructions = Some inst →
            has_attributes inst ∧
            ∀ x, x ∈ payload inst → is_Some (variables !! x).

(** The instruction makes [run] send the target [t] to the generator: a
    Jump to [t], or a JumpIfZero to [t] of a variable that holds 0. *)
Definition jumps_to (inst : Instruction) (variables : gmap string (option Z))
    (t : Z) : Prop :=
  jump_to inst = Some t ∧
  (key inst = jump ∨
   (key inst = jump_zero ∧
    ∃ x, value_one inst = Some x ∧ variables !! x = Some (Some 0))).

(** A start state for [x] and for a name the examples do not mention. *)
Definition x_is_zero_q_is_seven : option (gmap string (option Z)) :=
  Some (<[ "x" := Some 0 ]> {[ "q" := Some 7 ]}).

(** The statement texts [a = <rhs>], [a = b + 1] (or [- 1] for the sign
    [-]), [a = b] and [a = b + c], for characters [a], [b], [c]. *)
Definition assign (a : ascii) (rhs : string) : string :=
  String a (String " " (String "=" (String " " rhs))).

Definition step_text (a b sign : ascii) : string :=
  assign a (String b (String " " (String sign " 1"))).

Definition transfer_text (a b : ascii) : string := assign a (String b "").

Definition add_text (a b c : ascii) : string :=
  assign a (String b (String " " (String "+" (String " " (String c ""))))).

(** The group a one-letter pattern captures. *)
Definition letter (a : ascii) : string := String a "".





(** The instruction never sends to the generator. *)
Definition no_jump (inst : Instruction) : Prop :=
  key inst ≠ jump ∧ key inst ≠ jump_zero.

(** * Properties *)

(** ** The generator and the loop of [run] *)

Section Generator.

Lemma loop_head_yield limit instruction count i g :
  loop_head limit instruction count = (Some i, g) →
  i = instruction ∧ g = Suspended limit instruction count ∧ count ≤ limit.
Proof.
  unfold loop_head. destruct (Z.gtb_spec count limit); intros [= <- <-].
  repeat split; lia.
Qed.

Lemma loop_head_stop limit instruction count g :
  loop_head limit instruction count = (None, g) →
  g = Finished ∧ limit < count.
Proof.
  unfold loop_head. destruct (Z.gtb_spec count limit); intros [= <-].
  split; [done | lia].
Qed.

(** A value obtained from [next] leaves the generator suspended on it,
    with one call less to answer. *)
Lemma next_yield g i g' :
  next g = (Some i, g') →
  (∃ limit count, g' = Suspended limit i count ∧ count ≤ limit) ∧
  (calls_left g' < calls_left g)%nat.
Proof.
  destruct g as [limit | limit instruction count |]; simpl; [| | done].
  - intros (-> & -> & ?)%loop_head_yield. split; [eauto |]. simpl. lia.
  - unfold after_yield. intros (-> & -> & ?)%loop_head_yield.
    split; [eauto |]. simpl. lia.
Qed.

Lemma send_yield g v j g' :
  send g v = (inr j, g') → (calls_left g' < calls_left g)%nat.
Proof.
  destruct g as [limit | limit instruction count |]; simpl; [done | | done].
  destruct (after_yield _ _ _ _) as [[i |] g0] eqn:E; [| done].
  intros [= <- <-]. unfold after_yield in E.
  apply loop_head_yield in E as (_ & -> & ?). simpl. lia.
Qed.

(** The body never gives the generator calls back. *)
Lemma body_continue i inst g variables g' variables' :
  body i inst g variables = Continue g' variables' →
  (calls_left g' ≤ calls_left g)%nat.
Proof.
  assert (Hsend : ∀ t, do_send g t (λ g0, Continue g0 variables)
                       = Continue g' variables' →
                       (calls_left g' ≤ calls_left g)%nat).
  { intros t. unfold do_send.
    destruct (send g t) as [[e | j] g0] eqn:E; [done |].
    intros [= <- _]. apply send_yield in E. lia. }
  unfold body, getattr, getitem.
  repeat match goal with
         | |- context [match ?x with _ => _ end] => destruct x eqn:?
         end;
    try done; try (intros [= <- _]; lia); eauto.
Qed.

(** After a value [i] obtained from [next], one more [next] without a
    [send] in between goes to the head of the loop with [i + 1]. *)
Lemma next_after g i g' :
  next g = (Some i, g') →
  ∃ limit count, g' = Suspended limit i count ∧ count ≤ limit ∧
                 next g' = loop_head limit (i + 1) (count + 1).
Proof.
  intros [(limit & count & -> & ?) _]%next_yield. by exists limit, count.
Qed.

End Generator.

Section Run.

Variable instructions : list (Z * Instruction).

(** The fuel [run] gives its loop suffices: the loop always ends. *)
Lemma run_loop_total fuel g variables :
  (calls_left g ≤ fuel)%nat →
  is_Some (run_loop fuel instructions g variables).
Proof.
  revert g variables. induction fuel as [| fuel IH]; intros g variables Hfuel.
  - destruct g; simpl in Hfuel; lia.
  - simpl. destruct (next g) as [[i |] g'] eqn:Hnext; [| eauto].
    apply next_yield in Hnext as [_ Hlt].
    destruct (Dict.get i instructions) as [inst |]; [| eauto].
    destruct (body i inst g' variables) as [e | | g'' variables'] eqn:Hbody;
      [eauto | eauto |].
    apply body_continue in Hbody.
    destruct (IH g'' variables') as [r ->]; [lia | eauto].
Qed.

(** More fuel does not change a result. *)
Lemma run_loop_more_fuel fuel fuel' g variables r :
  run_loop fuel instructions g variables = Some r →
  (fuel ≤ fuel')%nat →
  run_loop fuel' instructions g variables = Some r.
Proof.
  revert fuel' g variables r.
  induction fuel as [| fuel IH]; intros fuel' g variables r; [done |].
  destruct fuel' as [| fuel']; [lia |]. simpl.
  destruct (next g) as [[i |] g']; [| done].
  destruct (Dict.get i instructions) as [inst |]; [| done].
  destruct (body i inst g' variables) as [e | | g'' variables']; [done | done |].
  destruct (run_loop fuel instructions g'' variables') as [r' |] eqn:E; [| done].
  intros Hr Hle. rewrite (IH fuel' _ _ r' E); [done | lia].
Qed.

(** A line that is looked up and absent ends the loop at once, with the
    error of the unknown line. *)
Lemma run_loop_absent fuel g variables r i :
  run_loop fuel instructions g variables = Some r →
  i ∈ visited r →
  Dict.get i instructions = None →
  ended r = Raised (KeyError_line i) ∧ last (visited r) = Some i.
Proof.
  revert g variables r.
  induction fuel as [| fuel IH]; intros g variables r; [done |]. simpl.
  destruct (next g) as [[i0 |] g']; [| intros [= <-]; simpl; set_solver].
  destruct (Dict.get i0 instructions) as [inst |] eqn:Hget.
  - destruct (body i0 inst g' variables) as [e | | g'' variables'].
    + intros [= <-]; simpl. intros ->%list_elem_of_singleton. congruence.
    + intros [= <-]; simpl. intros ->%list_elem_of_singleton. congruence.
    + destruct (run_loop fuel instructions g'' variables') as [r' |] eqn:E;
        [| done].
      intros [= <-]; simpl. intros [-> | Hin]%elem_of_cons Habs; [congruence |].
      destruct (IH _ _ _ E Hin Habs) as [He Hl]. split; [done |].
      destruct (visited r'); [done | exact Hl].
  - intros [= <-]; simpl. intros ->%list_elem_of_singleton _. done.
Qed.

End Run.

Lemma run_total limit self : is_Some (run_with_limit limit self).
Proof. apply run_loop_total. done. Qed.

(** ** The dict of instructions and the numbering check *)

Section Parse.

Lemma get_None_keys {V} (k : Z) (d : list (Z * V)) :
  Dict.get k d = None ↔ k ∉ Dict.keys d.
Proof.
  induction d as [| [k' v] d IH]; simpl.
  - split; [intros _; apply not_elem_of_nil | done].
  - rewrite not_elem_of_cons. destruct (Z.eqb_spec k' k) as [-> | Hne].
    + split; [done | intros [? _]; done].
    + rewrite IH. split; [intros ?; split; congruence | intros [_ ?]; done].
Qed.

Lemma keys_set_new {V} (k : Z) (v : V) (d : list (Z * V)) :
  k ∉ Dict.keys d → Dict.keys (Dict.set k v d) = Dict.keys d ++ [k].
Proof.
  induction d as [| [k' v'] d IH]; simpl; [done |].
  rewrite not_elem_of_cons. intros [Hne Hd].
  destruct (Z.eqb_spec k' k); [congruence |]. simpl. f_equal. apply IH, Hd.
Qed.

(** The check passes exactly on the keys [i + 1], [i + 2], ... in this
    order. *)
Lemma numbering_ok_spec (i : Z) (keys : list Z) :
  numbering_ok i keys = true ↔ keys = seqZ (i + 1) (Z.of_nat (length keys)).
Proof.
  revert i. induction keys as [| k keys IH]; intros i; simpl length.
  - split; done.
  - rewrite (seqZ_cons (i + 1)) by lia. simpl.
    replace (Z.pred (Z.of_nat (S (length keys)))) with (Z.of_nat (length keys))
      by lia.
    replace (Z.succ (i + 1)) with (i + 1 + 1) by lia.
    destruct (Z.eqb_spec (i + 1) k) as [<- | Hne]; simpl.
    + rewrite IH. split; [intros <-; done | intros [= <-]; done].
    + split; [done | intros [= ? _]; done].
Qed.

Variable ext : Z.

Lemma parse_line_parses instructions line :
  line_parses ext line = true →
  ∃ n inst,
    match_line line = Some n ∧
    parse_line ext instructions line =
      match Dict.get (Text.int (fst n)) instructions with
      | Some _ => inl SyntaxError_duplicate
      | None => inr (Dict.set (Text.int (fst n)) inst instructions)
      end.
Proof.
  unfold line_parses, parse_line.
  destruct (match_line line) as [[digits code] |]; [| done].
  intros [[k m] Hrec]%bool_decide_eq_true. rewrite Hrec.
  exists (digits, code), (Instruction_init (Text.int digits) k m). simpl.
  split; [done |]. destruct (Dict.get _ _); done.
Qed.

(** When every line parses and no line number comes twice, the loop over
    the lines ends without an error and the keys of the dict are the line
    numbers in the order of the file. *)
Lemma parse_lines_keys lines instructions :
  all_parse ext lines →
  NoDup (Dict.keys instructions ++ line_numbers lines) →
  ∃ instructions',
    parse_lines ext lines instructions = inr instructions' ∧
    Dict.keys instructions' = Dict.keys instructions ++ line_numbers lines.
Proof.
  revert instructions.
  induction lines as [| line lines IH]; intros instructions Hall Hnd.
  - exists instructions. simpl. by rewrite app_nil_r.
  - assert (Hall' : all_parse ext lines).
    { intros l Hl. apply Hall. by right. }
    unfold line_numbers in *. simpl in *.
    destruct (is_comment line) eqn:Hc.
    { assert (Hn : line_number_of line = None)
        by (unfold line_number_of; by rewrite Hc).
      rewrite Hn in *. by apply IH. }
    destruct (parse_line_parses instructions line)
      as ([digits code] & inst & Hm & ->).
    { apply Hall; [by left | done]. }
    assert (Hn : line_number_of line = Some (Text.int digits))
      by (unfold line_number_of; by rewrite Hc, Hm).
    rewrite Hn in *. simpl in *.
    assert (Hfresh : Text.int digits ∉ Dict.keys instructions).
    { apply NoDup_app in Hnd as (_ & Hdisj & _). intros Hin.
      apply (Hdisj _ Hin). by left. }
    rewrite (proj2 (get_None_keys _ _) Hfresh).
    destruct (IH (Dict.set (Text.int digits) inst instructions) Hall')
      as (instructions' & -> & Hkeys).
    { rewrite keys_set_new by done. by rewrite <- app_assoc. }
    exists instructions'. split; [done |].
    rewrite Hkeys, keys_set_new by done. by rewrite <- app_assoc.
Qed.

End Parse.

Lemma all_parseb_sound ext lines :
  all_parseb ext lines = true → all_parse ext lines.
Proof.
  unfold all_parseb, all_parse. rewrite forallb_forall.
  intros H line Hin%list_elem_of_In Hc. specialize (H line Hin).
  by rewrite Hc in H.
Qed.

(** ** The extension level *)

(** C1 (the code departs from the claim).  The claim: the recognizer accepts
    the extension forms 0..k for the extension level k given to the
    constructor; with the default level -1 a Transfer line raises the
    unrecognized-statement error.  The code: the constructor does not store
    its [ext] argument, the level is always 0.  So with the default level a
    Transfer line is recognised, and with the levels 1 and 2 an Add line and
    an AbsDiff line are refused; the loop over the extension table itself
    would do what the claim says with the level it is given. *)
Theorem C1_extension_level_not_stored :
  (∀ file st e, ext (AssemblyParser_init file st e) = 0) ∧
  (∃ p, parse_assembly (AssemblyParser_init transfer_line None default_ext) = inr p
        ∧ key <$> Dict.get 1 (instructions p) = Some transfer) ∧
  parse_assembly (AssemblyParser_init add_line None 1)
    = inl (SyntaxError_no_match "x = x + y") ∧
  parse_assembly (AssemblyParser_init abs_diff_line None 2)
    = inl (SyntaxError_no_match "z = abs(x - y)") ∧
  recognise default_ext "x = y" = None ∧
  fst <$> recognise 1 "x = x + y" = Some add ∧
  fst <$> recognise 2 "z = abs(x - y)" = Some abs_diff.
Proof.
  split; [done |]. split; [| by vm_compute].
  eexists. split; [by vm_compute | by vm_compute].
Qed.

(** ** The numbering of the lines *)

(** C2, the claim as stated fails: the two lines numbered 2 and 1, in this
    order, parse, carry distinct numbers that form the set {1, 2}, and the
    file is refused with the numbering error. *)
Lemma C2_out_of_order_refused :
  all_parse 0 swapped_lines ∧
  NoDup (line_numbers swapped_lines) ∧
  (list_to_set (line_numbers swapped_lines) : gset Z)
    = list_to_set (seqZ 1 (Z.of_nat (length (line_numbers swapped_lines)))) ∧
  parse_assembly (AssemblyParser_init swapped_lines None default_ext)
    = inl SyntaxError_numbering.
Proof.
  split; [by apply all_parseb_sound |].
  split; [by apply (bool_decide_unpack _); vm_compute |].
  split; [by apply (bool_decide_unpack _); vm_compute | by vm_compute].
Qed.

(** C2, amended.  For a file whose lines other than comments all parse and
    carry distinct line numbers, parsing succeeds if and only if the line
    numbers, in the order of the file, are 1, 2, ..., N; the dict then has
    them as its keys, and any other file of this kind (a gap, or the
    numbers 1..N out of order) is refused with the numbering error, which
    [parse_assembly] raises and [run] is not part of. *)
Theorem C2_parse_succeeds_iff_numbered_in_order
    (lines : list string) (st : option (gmap string (option Z))) (e : Z) :
  all_parse (ext (AssemblyParser_init lines st e)) lines →
  NoDup (line_numbers lines) →
  ((∃ p, parse_assembly (AssemblyParser_init lines st e) = inr p) ↔
   line_numbers lines = seqZ 1 (Z.of_nat (length (line_numbers lines)))) ∧
  (∀ p, parse_assembly (AssemblyParser_init lines st e) = inr p →
        Dict.keys (instructions p) = line_numbers lines) ∧
  (line_numbers lines ≠ seqZ 1 (Z.of_nat (length (line_numbers lines))) →
   parse_assembly (AssemblyParser_init lines st e) = inl SyntaxError_numbering).
Proof.
  intros Hall Hnd. unfold parse_assembly. simpl in *.
  destruct (parse_lines_keys 0 lines [] Hall Hnd) as (instructions' & -> & Hkeys).
  simpl in Hkeys. rewrite <- Hkeys.
  pose proof (numbering_ok_spec 0 (Dict.keys instructions')) as Hspec.
  destruct (numbering_ok 0 (Dict.keys instructions')).
  - split; [split; [intros _; by apply Hspec | eauto] |].
    split; [by intros p [= <-] | intros Hne; destruct Hne; by apply Hspec].
  - split; [split; [by intros [p ?] | intros Heq%Hspec; done] |].
    split; [done | done].
Qed.

(** C2, amended, on the three lines of the jump example: they parse, their
    numbers are distinct, and the file is accepted. *)
Lemma C2_parse_succeeds_iff_numbered_in_order_witness :
  all_parse 0 skip_increment ∧
  NoDup (line_numbers skip_increment) ∧
  ∃ p, parse_assembly (AssemblyParser_init skip_increment x_is_zero default_ext)
       = inr p.
Proof.
  assert (Hall : all_parse 0 skip_increment) by by apply all_parseb_sound.
  assert (Hnd : NoDup (line_numbers skip_increment))
    by by apply (bool_decide_unpack _); vm_compute.
  split; [done |]. split; [done |].
  apply (C2_parse_succeeds_iff_numbered_in_order
           skip_increment x_is_zero default_ext Hall Hnd).
  by vm_compute.
Defined.

(** ** The bound on the steps *)

(** C3, the claim as stated fails: the run of the counting loop from x = 0
    does not return with x equal to the limit of 300. *)
Lemma C3_counter_is_not_the_limit :
  ¬ ∃ r, parse_then_run counting_loop x_is_zero default_ext = inr (Some r)
         ∧ returned r
         ∧ final r !! "x" = Some (Some default_limit).
Proof.
  intros (r & Hrun & _ & Hx). vm_compute in Hrun.
  injection Hrun as <-. by vm_compute in Hx.
Qed.

(** C3, amended.  The run of the counting loop from x = 0 ends when the
    generator returns at its bound, without an exception, and x is then
    101: the generator counts each of its resumptions, a jump resumes it
    twice, so a round of the two lines takes three of the 301 counts and
    the loop runs its body 201 times, the last time on line 1. *)
Theorem C3_counting_loop_stops_at_101 :
  ∃ r, parse_then_run counting_loop x_is_zero default_ext = inr (Some r)
       ∧ ended r = Exhausted
       ∧ final r !! "x" = Some (Some 101)
       ∧ length (visited r) = 201%nat
       ∧ last (visited r) = Some 1.
Proof.
  eexists. split; [by vm_compute |]. by vm_compute.
Qed.

(** ** Lines that do not exist *)

(** C4.  Every run ends, and if any value the loop of [run] takes for the
    line to execute has no instruction, the run ends there with the error
    of the unknown line: that line is the last one looked up and the run
    did not return.  The same at one pass of the loop, from any state of
    the generator and of the variables, which are left as they were. *)
Theorem C4_unknown_line_raises (limit : Z) (self : AssemblyParser) :
  (∃ r, run_with_limit limit self = Some r ∧
        ∀ i, i ∈ visited r → Dict.get i (instructions self) = None →
             ended r = Raised (KeyError_line i) ∧ last (visited r) = Some i) ∧
  (∀ fuel g g' vars i,
     next g = (Some i, g') → Dict.get i (instructions self) = None →
     run_loop (S fuel) (instructions self) g vars
     = Some {| ended := Raised (KeyError_line i); final := vars;
               visited := [i] |}).
Proof.
  split.
  - destruct (run_total limit self) as [r Hr]. exists r. split; [done |].
    intros i. by apply run_loop_absent with (1 := Hr).
  - intros fuel g g' vars i Hnext Hget. simpl. by rewrite Hnext, Hget.
Qed.

(** C4 on the one line [(1) goto 99]: line 99 is looked up, it does not
    exist, and the run ends with the error of the unknown line 99. *)
Lemma C4_unknown_line_raises_witness :
  ∃ p r, parse_assembly (AssemblyParser_init jump_nowhere None default_ext) = inr p
         ∧ run p = Some r
         ∧ 99 ∈ visited r
         ∧ Dict.get 99 (instructions p) = None
         ∧ ended r = Raised (KeyError_line 99).
Proof.
  eexists.
  match goal with
  | |- ∃ r, _ = inr ?p ∧ _ =>
      destruct (proj1 (C4_unknown_line_raises default_limit p)) as (r & Hr & H)
  end.
  exists r. split; [by vm_compute |]. split; [exact Hr |].
  assert (Hin : 99 ∈ visited r).
  { vm_compute in Hr. apply (inj Some) in Hr as <-. simpl.
    apply elem_of_cons; right. apply elem_of_cons; by left. }
  split; [done |]. split; [by vm_compute |].
  apply H; [done | by vm_compute].
Defined.

(** ** Example runs *)

(** C7.  The run of the three lines from x = 0 takes the jump of line 1 to
    line 3: the loop is run on the lines 1 and 3 only, it ends by the
    [halt] of line 3 and x is still 0. *)
Theorem C7_jump_over_the_increment :
  ∃ r, parse_then_run skip_increment x_is_zero default_ext = inr (Some r)
       ∧ ended r = Halted
       ∧ visited r = [1; 3]
       ∧ (2 ∉ visited r)
       ∧ final r !! "x" = Some (Some 0).
Proof.
  eexists. split; [by vm_compute |].
  split; [by vm_compute |]. split; [by vm_compute |].
  split; [| by vm_compute].
  apply (bool_decide_unpack _). by vm_compute.
Qed.

(** C9.  A file with the one line [(1) stop] parses, whatever the start
    state and the extension level; the variable table is then the start
    state (empty without one); the run ends at once by the [halt] of
    line 1, without an exception, and leaves the table as it was. *)
Theorem C9_only_stop_leaves_variables
    (st : option (gmap string (option Z))) (e : Z) :
  ∃ p r, parse_assembly (AssemblyParser_init only_stop st e) = inr p
         ∧ variables p = default ∅ st
         ∧ run p = Some r
         ∧ ended r = Halted
         ∧ visited r = [1]
         ∧ final r = variables p.
Proof.
  unfold parse_assembly. simpl ext. simpl file. simpl instructions.
  replace (parse_lines 0 only_stop [])
    with (inr (B := list (Z * Instruction)) (A := exn)
              [(1, Instruction_init 1 halt [])]) by by vm_compute.
  replace (numbering_ok 0 (Dict.keys [(1, Instruction_init 1 halt [])]))
    with true by by vm_compute.
  eexists _, _. split; [reflexivity |]. simpl variables. simpl start_state.
  split; [| split; [reflexivity | done]].
  replace (mentioned [(1, Instruction_init 1 halt [])]) with (∅ : gset string)
    by by vm_compute.
  unfold initial_variables. rewrite gset_to_gmap_empty.
  destruct st as [m |]; simpl; [| done].
  case_bool_decide; [by subst | by rewrite map_union_empty].
Qed.

(** ** Single instructions *)

Section Instructions.

Variables (i : Z) (inst : Instruction).
Variable variables : gmap string (option Z).

(** C5.  The body of the loop on an Increment or a Decrement of [x] raises
    one of the two errors of an uninitialised variable if and only if [x]
    holds [None]; the run then ends in this pass of the loop with that
    error, the variables as they were. *)
Theorem C5_uninitialised_iff_no_value (k : Key) (x : string) :
  k = inc ∨ k = dec →
  on_variable k x inst →
  (∀ g, (∃ e, body i inst g variables = Raise e ∧ uninitialised e = true)
        ↔ variables !! x = Some None) ∧
  (variables !! x = Some None →
   ∀ fuel instructions g g',
     next g = (Some i, g') → Dict.get i instructions = Some inst →
     ∃ e, uninitialised e = true ∧
          run_loop (S fuel) instructions g variables
          = Some {| ended := Raised e; final := variables; visited := [i] |}).
Proof.
  intros Hk [Hkey Hone]. split.
  - intros g. unfold body, getattr, getitem. rewrite Hkey, Hone.
    destruct Hk as [-> | ->]; destruct (variables !! x) as [[v |] |];
      (split; [by intros (e & [= <-] & ?) |];
       intros [=]; eexists; by split).
  - intros Hx fuel instructions g g' Hnext Hget. simpl.
    rewrite Hnext, Hget. unfold body, getattr, getitem.
    rewrite Hkey, Hone, Hx.
    destruct Hk as [-> | ->];
      [by exists (TypeError_inc i) | by exists (TypeError_dec i)].
Qed.

(** C8.  The body of the loop on a Transfer to [x] from a [y] that holds
    [None] raises nothing: [x] holds [None] afterwards, the generator is
    not touched, the loop goes on, and the generator is next asked for
    line [i + 1]. *)
Theorem C8_transfer_of_no_value (x y : string) :
  key inst = transfer → value_one inst = Some x → value_two inst = Some y →
  variables !! y = Some None →
  (∀ g, body i inst g variables = Continue g (<[x := None]> variables)) ∧
  (∀ fuel instructions g g',
     next g = (Some i, g') → Dict.get i instructions = Some inst →
     run_loop (S fuel) instructions g variables
     = visit i <$> run_loop fuel instructions g' (<[x := None]> variables)
     ∧ ∃ limit count, g' = Suspended limit i count
                      ∧ next g' = loop_head limit (i + 1) (count + 1)).
Proof.
  intros Hkey Hone Htwo Hy.
  assert (Hbody : ∀ g, body i inst g variables
                       = Continue g (<[x := None]> variables)).
  { intros g. unfold body, getattr, getitem. by rewrite Hkey, Htwo, Hy, Hone. }
  split; [done |]. intros fuel instructions g g' Hnext Hget. split.
  - simpl. by rewrite Hnext, Hget, Hbody.
  - apply next_after in Hnext as (limit & count & -> & _ & Hn). eauto.
Qed.

(** C10.  The body of the loop on a JumpIfZero of an [x] that holds [None]
    raises nothing and sends nothing to the generator: the variables and
    the generator are as before, the loop goes on, and the generator is
    next asked for line [i + 1]. *)
Theorem C10_jump_zero_of_no_value (x : string) :
  key inst = jump_zero → value_one inst = Some x →
  variables !! x = Some None →
  (∀ g, body i inst g variables = Continue g variables) ∧
  (∀ fuel instructions g g',
     next g = (Some i, g') → Dict.get i instructions = Some inst →
     run_loop (S fuel) instructions g variables
     = visit i <$> run_loop fuel instructions g' variables
     ∧ ∃ limit count, g' = Suspended limit i count
                      ∧ next g' = loop_head limit (i + 1) (count + 1)).
Proof.
  intros Hkey Hone Hx.
  assert (Hbody : ∀ g, body i inst g variables = Continue g variables).
  { intros g. unfold body, getattr, getitem. by rewrite Hkey, Hone, Hx. }
  split; [done |]. intros fuel instructions g g' Hnext Hget. split.
  - simpl. by rewrite Hnext, Hget, Hbody.
  - apply next_after in Hnext as (limit & count & -> & _ & Hn). eauto.
Qed.

End Instructions.

(** ** Increments and decrements *)

Section Counting.

Variable x : string.

Lemma body_change k d i inst g (variables : gmap string (option Z)) v :
  change k d → on_variable k x inst →
  variables !! x = Some (Some v) →
  body i inst g variables = Continue g (<[x := Some (v + d)]> variables).
Proof.
  intros Hk [Hkey Hone] Hx. unfold body, getattr, getitem.
  rewrite Hkey, Hone, Hx. by destruct Hk as [[-> ->] | [-> ->]].
Qed.

Lemma run_bodies_change k d l g (variables : gmap string (option Z)) v :
  change k d → Forall (λ p, on_variable k x p.2) l →
  variables !! x = Some (Some v) →
  run_bodies l g variables
  = Continue g (<[x := Some (v + d * Z.of_nat (length l))]> variables).
Proof.
  intros Hk Hl. revert variables v.
  induction Hl as [| [i inst] l Hinst _ IH]; intros variables v Hx; simpl.
  - f_equal. rewrite insert_id; [done |]. rewrite Hx. do 2 f_equal. lia.
  - rewrite (body_change k d i inst g variables v Hk Hinst Hx).
    rewrite (IH _ (v + d)) by apply lookup_insert_eq.
    rewrite insert_insert_eq. do 3 f_equal. lia.
Qed.

Lemma run_bodies_app l1 l2 g (variables : gmap string (option Z)) g' variables' :
  run_bodies l1 g variables = Continue g' variables' →
  run_bodies (l1 ++ l2) g variables = run_bodies l2 g' variables'.
Proof.
  revert g variables. induction l1 as [| [i inst] l1 IH]; intros g variables; simpl.
  - by intros [= -> ->].
  - destruct (body i inst g variables); [done | done | apply IH].
Qed.

Variable instructions : list (Z * Instruction).

Lemma visited_foldr_visit l r :
  ended (foldr visit r l) = ended r ∧ final (foldr visit r l) = final r
  ∧ visited (foldr visit r l) = l ++ visited r.
Proof.
  induction l as [| i l (He & Hf & Hv)]; simpl; [done |].
  by rewrite He, Hf, Hv.
Qed.

(** The loop over a block of [n] instructions of key [k] on [x]: [n] calls
    of [next], as long as the bound allows them, and the change made [n]
    times. *)
Lemma run_loop_block k d n :
  change k d →
  ∀ fuel g (variables : gmap string (option Z)) v i limit count,
    block k x instructions i n →
    variables !! x = Some (Some v) →
    next g = loop_head limit i count →
    count + Z.of_nat n ≤ limit + 1 →
    ∃ g', next g' = loop_head limit (i + Z.of_nat n) (count + Z.of_nat n) ∧
          ∀ r, run_loop fuel instructions g'
                 (<[x := Some (v + d * Z.of_nat n)]> variables) = Some r →
               run_loop (n + fuel) instructions g variables
               = Some (foldr visit r (seqZ i (Z.of_nat n))).
Proof.
  intros Hk. induction n as [| n IH];
    intros fuel g variables v i limit count Hblock Hx Hnext Hcount.
  - exists g. split.
    + rewrite Hnext. f_equal; lia.
    + intros r. rewrite insert_id; [done |]. rewrite Hx. do 2 f_equal. lia.
  - destruct (Hblock 0%nat) as (inst & Hget & Hinst); [lia |].
    replace (i + Z.of_nat 0) with i in Hget by lia.
    assert (Hhead : loop_head limit i count
                    = (Some i, Suspended limit i count)).
    { unfold loop_head. destruct (Z.gtb_spec count limit); [lia | done]. }
    destruct (IH fuel (Suspended limit i count)
                (<[x := Some (v + d)]> variables) (v + d) (i + 1) limit
                (count + 1)) as (g' & Hg' & Hrun).
    { intros j Hj. destruct (Hblock (S j)) as (inst' & Hget' & Hinst'); [lia |].
      exists inst'. split; [| done]. rewrite <- Hget'. f_equal. lia. }
    { apply lookup_insert_eq. }
    { done. }
    { lia. }
    exists g'. split.
    + rewrite Hg'. f_equal; lia.
    + intros r Hr. simpl. rewrite Hnext, Hhead, Hget.
      rewrite (body_change k d i inst _ variables v Hk Hinst Hx).
      rewrite (Hrun r).
      * simpl. rewrite (seqZ_cons i) by lia. simpl. repeat f_equal; lia.
      * rewrite insert_insert_eq. rewrite <- Hr. do 3 f_equal. lia.
Qed.

End Counting.

(** C6.  On a variable [x] that holds the integer [v], the body of the
    loop on an Increment leaves [x] at [v + 1] and on a Decrement at
    [v - 1], everything else as it was.  So the body run on [n] Increments
    of [x] and then on [n] Decrements of [x] leaves the variables as they
    were; and a program of [n] Increments of [x], [n] Decrements of [x] and
    a Halt, run under a bound of at least [2 n], ends on the Halt with the
    variables as they were (a run under the bound [limit] makes at most
    [limit + 1] passes of the loop). *)
Theorem C6_increment_decrement_exact
    (x : string) (v : Z) (vars : gmap string (option Z)) :
  vars !! x = Some (Some v) →
  (∀ i inst g, on_variable inc x inst →
     body i inst g vars = Continue g (<[x := Some (v + 1)]> vars)) ∧
  (∀ i inst g, on_variable dec x inst →
     body i inst g vars = Continue g (<[x := Some (v - 1)]> vars)) ∧
  (∀ incs decs g,
     Forall (λ p, on_variable inc x p.2) incs →
     Forall (λ p, on_variable dec x p.2) decs →
     length incs = length decs →
     run_bodies incs g vars
     = Continue g (<[x := Some (v + Z.of_nat (length incs))]> vars) ∧
     run_bodies (incs ++ decs) g vars = Continue g vars) ∧
  (∀ (n : nat) limit self,
     variables self = vars →
     block inc x (instructions self) 1 n →
     block dec x (instructions self) (1 + Z.of_nat n) n →
     (∃ inst, Dict.get (1 + 2 * Z.of_nat n) (instructions self) = Some inst
              ∧ key inst = halt) →
     2 * Z.of_nat n ≤ limit →
     run_with_limit limit self
     = Some {| ended := Halted; final := vars;
               visited := seqZ 1 (2 * Z.of_nat n + 1) |}).
Proof.
  intros Hx.
  assert (Hup : change inc 1) by (by left).
  assert (Hdown : change dec (-1)) by (by right).
  split; [intros i inst g Hinst; by apply (body_change x inc 1) |].
  split; [intros i inst g Hinst; by apply (body_change x dec (-1)) |].
  split.
  - intros incs decs g Hincs Hdecs Hlen.
    pose proof (run_bodies_change x inc 1 incs g vars v Hup Hincs Hx) as Hrun.
    rewrite Z.mul_1_l in Hrun. split; [done |].
    rewrite (run_bodies_app _ decs _ _ _ _ Hrun).
    rewrite (run_bodies_change x dec (-1) decs g _ (v + Z.of_nat (length incs)))
      by (done || apply lookup_insert_eq).
    rewrite insert_insert_eq, insert_id; [done |].
    rewrite Hx. do 2 f_equal. lia.
  - intros n limit self Hvars Hincs Hdecs (inst & Hget & Hkey) Hlimit.
    unfold run_with_limit. rewrite Hvars.
    set (r := {| ended := Halted; final := vars;
                 visited := [1 + 2 * Z.of_nat n] |}).
    destruct (run_loop_block x (instructions self) inc 1 n Hup (n + 1)
                (instruction_generator limit) vars v 1 limit 0)
      as (g1 & Hg1 & Hrun1); [done | done | done | lia |].
    destruct (run_loop_block x (instructions self) dec (-1) n Hdown 1
                g1 (<[x := Some (v + 1 * Z.of_nat n)]> vars)
                (v + 1 * Z.of_nat n) (1 + Z.of_nat n) limit (0 + Z.of_nat n))
      as (g2 & Hg2 & Hrun2);
      [done | apply lookup_insert_eq | done | lia |].
    assert (Hlast : run_loop 1 (instructions self) g2 vars = Some r).
    { simpl. rewrite Hg2. unfold loop_head.
      destruct (Z.gtb_spec (0 + Z.of_nat n + Z.of_nat n) limit); [lia |].
      replace (1 + Z.of_nat n + Z.of_nat n) with (1 + 2 * Z.of_nat n) by lia.
      rewrite Hget. unfold body. by rewrite Hkey. }
    rewrite insert_insert_eq, insert_id in Hrun2
      by (rewrite Hx; do 2 f_equal; lia).
    apply (run_loop_more_fuel _ (n + (n + 1))); [| simpl; lia].
    rewrite (Hrun1 _ (Hrun2 r Hlast)).
    destruct (visited_foldr_visit (seqZ 1 (Z.of_nat n))
                (foldr visit r (seqZ (1 + Z.of_nat n) (Z.of_nat n))))
      as (He & Hf & Hv).
    destruct (visited_foldr_visit (seqZ (1 + Z.of_nat n) (Z.of_nat n)) r)
      as (He' & Hf' & Hv').
    destruct (foldr visit _ (seqZ 1 _)) as [e f vs]. simpl in *.
    rewrite He, He', Hf, Hf', Hv, Hv'. do 2 f_equal.
    replace (2 * Z.of_nat n + 1) with (Z.of_nat n + (Z.of_nat n + 1)) by lia.
    rewrite (seqZ_app 1), (seqZ_app (1 + _)) by lia.
    do 2 f_equal. rewrite (seqZ_cons _ 1) by lia. simpl. f_equal. lia.
Qed.

(** C6 on two increments, two decrements and a stop, from x = 0: the run
    goes through the five lines and leaves the variables as they were. *)
Lemma C6_increment_decrement_exact_witness :
  ∃ p, parse_assembly (AssemblyParser_init up_and_down x_is_zero default_ext)
       = inr p
       ∧ variables p !! "x" = Some (Some 0)
       ∧ run p = Some {| ended := Halted; final := variables p;
                         visited := [1; 2; 3; 4; 5] |}.
Proof.
  eexists. split; [by vm_compute |].
  match goal with
  | |- variables ?p !! _ = _ ∧ _ =>
      assert (Hx : variables p !! "x" = Some (Some 0)) by (by vm_compute);
      split; [exact Hx |];
      apply (proj2 (proj2 (proj2
               (C6_increment_decrement_exact "x" 0 (variables p) Hx)))
               2%nat default_limit p)
  end.
  - done.
  - intros [| [| j]] Hj; [| | lia]; (eexists; split; [by vm_compute | by split]).
  - intros [| [| j]] Hj; [| | lia]; (eexists; split; [by vm_compute | by split]).
  - eexists. split; [by vm_compute | done].
  - by vm_compute.
Defined.

(** ** The single instructions on concrete programs *)

(** C5 on the one line [(1) x = x + 1] without a start state: [x] holds
    [None] and the run ends on line 1 with the error of an uninitialised
    variable. *)
Lemma C5_uninitialised_iff_no_value_witness :
  ∃ p inst,
    parse_assembly (AssemblyParser_init increment_only None default_ext) = inr p
    ∧ Dict.get 1 (instructions p) = Some inst
    ∧ on_variable inc "x" inst
    ∧ variables p !! "x" = Some None
    ∧ ∃ e, uninitialised e = true
           ∧ run p = Some {| ended := Raised e; final := variables p;
                             visited := [1] |}.
Proof.
  eexists _, _. split; [by vm_compute |]. split; [by vm_compute |].
  match goal with
  | |- on_variable _ _ ?inst ∧ variables ?p !! _ = _ ∧ _ =>
      assert (Hinst : on_variable inc "x" inst) by (by vm_compute);
      assert (Hx : variables p !! "x" = Some None) by (by vm_compute);
      split; [exact Hinst |]; split; [exact Hx |];
      apply (proj2 (C5_uninitialised_iff_no_value 1 inst (variables p)
                      inc "x" (or_introl eq_refl) Hinst)
               Hx (Z.to_nat 301) (instructions p)
               (instruction_generator default_limit) (Suspended 300 1 0))
  end.
  - by vm_compute.
  - by vm_compute.
Defined.

(** C8 on the one line [(1) x = y] without a start state: [y] holds [None],
    the first pass of the loop raises nothing and the run goes on with [x]
    at [None]. *)
Lemma C8_transfer_of_no_value_witness :
  ∃ p inst,
    parse_assembly (AssemblyParser_init transfer_line None default_ext) = inr p
    ∧ Dict.get 1 (instructions p) = Some inst
    ∧ key inst = transfer
    ∧ variables p !! "y" = Some None
    ∧ run p = visit 1 <$> run_loop (Z.to_nat 301) (instructions p)
                            (Suspended 300 1 0)
                            (<["x" := None]> (variables p)).
Proof.
  eexists _, _. split; [by vm_compute |]. split; [by vm_compute |].
  match goal with
  | |- key ?inst = _ ∧ variables ?p !! _ = _ ∧ _ =>
      assert (Hy : variables p !! "y" = Some None) by (by vm_compute);
      split; [reflexivity |]; split; [exact Hy |];
      apply (proj2 (C8_transfer_of_no_value 1 inst (variables p) "x" "y"
                      eq_refl eq_refl eq_refl Hy)
               (Z.to_nat 301) (instructions p)
               (instruction_generator default_limit) (Suspended 300 1 0))
  end.
  - by vm_compute.
  - by vm_compute.
Defined.

(** C10 on the one line [(1) if (x == 0) goto 1] without a start state: [x]
    holds [None], the first pass of the loop raises nothing and the run goes
    on with the variables as they were. *)
Lemma C10_jump_zero_of_no_value_witness :
  ∃ p inst,
    parse_assembly (AssemblyParser_init test_only None default_ext) = inr p
    ∧ Dict.get 1 (instructions p) = Some inst
    ∧ key inst = jump_zero
    ∧ variables p !! "x" = Some None
    ∧ run p = visit 1 <$> run_loop (Z.to_nat 301) (instructions p)
                            (Suspended 300 1 0) (variables p).
Proof.
  eexists _, _. split; [by vm_compute |]. split; [by vm_compute |].
  match goal with
  | |- key ?inst = _ ∧ variables ?p !! _ = _ ∧ _ =>
      assert (Hx : variables p !! "x" = Some None) by (by vm_compute);
      split; [reflexivity |]; split; [exact Hx |];
      apply (proj2 (C10_jump_zero_of_no_value 1 inst (variables p) "x"
                      eq_refl eq_refl Hx)
               (Z.to_nat 301) (instructions p)
               (instruction_generator default_limit) (Suspended 300 1 0))
  end.
  - by vm_compute.
  - by vm_compute.
Defined.

(** * Further properties of the parser *)

Section ParseLines.

Variable ext : Z.

(** The lines are parsed from left to right and the first error ends the
    parse. *)
Lemma parse_lines_app pre post instructions :
  parse_lines ext (pre ++ post) instructions
  = match parse_lines ext pre instructions with
    | inl e => inl e
    | inr instructions' => parse_lines ext post instructions'
    end.
Proof.
  revert instructions. induction pre as [| line pre IH]; intros instructions;
    simpl; [done |].
  destruct (is_comment line); [apply IH |].
  destruct (parse_line ext instructions line); [done | apply IH].
Qed.

Lemma parse_lines_without_comments lines instructions :
  parse_lines ext (without_comments lines) instructions
  = parse_lines ext lines instructions.
Proof.
  revert instructions. unfold without_comments.
  induction lines as [| line lines IH]; intros instructions; [done |].
  rewrite filter_cons. simpl. destruct (is_comment line) eqn:Hc.
  - rewrite decide_False by done. apply IH.
  - rewrite decide_True by done. simpl. rewrite Hc.
    destruct (parse_line ext instructions line); [done | apply IH].
Qed.

(** What a line that is accepted adds to the dict. *)
Lemma parse_line_success instructions line instructions' :
  parse_line ext instructions line = inr instructions' →
  ∃ digits code k m,
    match_line line = Some (digits, code) ∧
    recognise ext (Text.strip code) = Some (k, m) ∧
    (Text.int digits ∉ Dict.keys instructions) ∧
    instructions'
    = instructions ++ [(Text.int digits, Instruction_init (Text.int digits) k m)].
Proof.
  unfold parse_line.
  destruct (match_line line) as [[digits code] |]; [| done].
  destruct (Dict.get _ _) eqn:Hget; [done |].
  destruct (recognise _ _) as [[k m] |] eqn:Hrec; [| done].
  intros [= <-]. exists digits, code, k, m.
  apply get_None_keys in Hget. repeat split; try done.
  clear -Hget. induction instructions as [| [k' v'] d IH]; simpl; [done |].
  simpl in Hget. rewrite not_elem_of_cons in Hget. destruct Hget as [Hne Hd].
  destruct (Z.eqb_spec k' (Text.int digits)); [congruence |].
  f_equal. by apply IH.
Qed.

(** After a parse without an error the dict holds what it held, then one
    entry for each line that is not a comment, in the order of the file. *)
Lemma parse_lines_success lines instructions instructions' :
  parse_lines ext lines instructions = inr instructions' →
  ∃ added,
    instructions' = instructions ++ added ∧
    Dict.keys added = line_numbers lines ∧
    (NoDup (Dict.keys instructions) → NoDup (Dict.keys instructions')) ∧
    Forall (λ e, ∃ code k m, recognise ext code = Some (k, m)
                             ∧ e.2 = Instruction_init e.1 k m) added.
Proof.
  revert instructions. induction lines as [| line lines IH]; intros instructions.
  - intros [= <-]. exists []. by rewrite app_nil_r.
  - simpl. unfold line_numbers. simpl. unfold line_number_of at 1.
    destruct (is_comment line) eqn:Hc; simpl; [apply IH |].
    destruct (parse_line ext instructions line) as [| instructions1] eqn:Hline;
      [done |].
    intros Hrest.
    apply parse_line_success in Hline
      as (digits & code & k & m & Hm & Hrec & Hfresh & ->).
    destruct (IH _ Hrest) as (added & -> & Hkeys & Hnd & Hall).
    exists ((Text.int digits, Instruction_init (Text.int digits) k m) :: added).
    rewrite Hm. simpl. split; [by rewrite <- app_assoc |].
    split; [simpl; f_equal; exact Hkeys |]. split.
    + intros Hnd0. apply Hnd. unfold Dict.keys. rewrite map_app. simpl.
      apply NoDup_app. split; [done |]. split; [| apply NoDup_singleton].
      intros n Hn ->%list_elem_of_singleton. by apply Hfresh.
    + constructor; [| done]. by exists (Text.strip code), k, m.
Qed.

End ParseLines.

Lemma get_Some_elem_of {V} (k : Z) (v : V) (d : list (Z * V)) :
  Dict.get k d = Some v → (k, v) ∈ d.
Proof.
  induction d as [| [k' v'] d IH]; simpl; [done |].
  destruct (Z.eqb_spec k' k) as [-> | _].
  - intros [= ->]. by left.
  - intros H. right. by apply IH.
Qed.

Lemma get_is_Some_keys {V} (k : Z) (d : list (Z * V)) :
  is_Some (Dict.get k d) ↔ k ∈ Dict.keys d.
Proof.
  rewrite <- not_eq_None_Some, get_None_keys.
  split; [apply dec_stable | by intros ? ?].
Qed.

Lemma Instruction_init_line_no n k m : line_no (Instruction_init n k m) = n.
Proof. by destruct k. Qed.

Lemma Instruction_init_key n k m : key (Instruction_init n k m) = k.
Proof. by destruct k. Qed.

(** A string that [strip] empties is empty or starts with a space. *)
Lemma strip_empty s :
  Text.strip s = "" →
  s = "" ∨ ∃ c s', s = String c s' ∧ Text.is_space c = true.
Proof.
  intros H. destruct s as [| c s']; [by left |].
  right. exists c, s'. split; [done |].
  unfold Text.strip in H. simpl in H.
  destruct (Text.is_space c) eqn:Hc; [done |]. simpl in H.
  destruct (Text.rstrip s'); [by rewrite Hc in H | done].
Qed.

Lemma blank_line_no_match line :
  Text.strip line = "" → is_comment line = false ∧ match_line line = None.
Proof.
  intros [-> | (c & s' & -> & Hc)]%strip_empty; [done |].
  unfold is_comment, match_line, re_match, Text.startswith, line_pattern.
  cbn [match_items Text.strip_prefix].
  assert (Hslash : Ascii.eqb "/" c = false).
  { destruct (Ascii.eqb_spec "/" c) as [<- |]; [done | done]. }
  assert (Hparen : Ascii.eqb "(" c = false).
  { destruct (Ascii.eqb_spec "(" c) as [<- |]; [done | done]. }
  by rewrite Hslash, Hparen.
Qed.

(** X1.  Comment lines do not count: the file without its comment lines
    gives the same instructions and variables, or the same error. *)
Theorem X1_comments_are_skipped
    (lines : list string) (st : option (gmap string (option Z))) (e : Z) :
  parsed (parse_assembly (AssemblyParser_init (without_comments lines) st e))
  = parsed (parse_assembly (AssemblyParser_init lines st e)).
Proof.
  unfold parse_assembly. simpl. rewrite parse_lines_without_comments.
  destruct (parse_lines 0 lines []) as [| instructions']; [done |].
  by destruct (numbering_ok 0 (Dict.keys instructions')).
Qed.

(** X2.  A line whose number an earlier line of the file carries ends the
    parse with the error of the duplicate line number, when no line before
    it raised an error; what its statement is does not matter, and neither
    does what follows. *)
Theorem X2_duplicate_line_number
    (pre post : list string) (line : string) (n : Z)
    (st : option (gmap string (option Z))) (e : Z) :
  (∃ instructions', parse_lines 0 pre [] = inr instructions') →
  line_number_of line = Some n →
  n ∈ line_numbers pre →
  parse_assembly (AssemblyParser_init (pre ++ line :: post) st e)
  = inl SyntaxError_duplicate.
Proof.
  intros [instructions' Hpre] Hn Hin. unfold parse_assembly. simpl.
  rewrite parse_lines_app, Hpre.
  apply parse_lines_success in Hpre as (added & -> & Hkeys & _ & _).
  simpl. unfold line_number_of in Hn.
  destruct (is_comment line); [done |]. unfold parse_line.
  destruct (match_line line) as [[digits code] |]; [| done].
  simpl in Hn. injection Hn as ->.
  rewrite <- Hkeys in Hin. apply get_is_Some_keys in Hin as [inst ->]. done.
Qed.

(** X3.  A blank line (empty, or of white space only) is no comment and
    has no line number: it ends the parse with the error of the missing
    line number, when no line before it raised an error. *)
Theorem X3_blank_line_is_refused
    (pre post : list string) (line : string)
    (st : option (gmap string (option Z))) (e : Z) :
  (∃ instructions', parse_lines 0 pre [] = inr instructions') →
  Text.strip line = "" →
  parse_assembly (AssemblyParser_init (pre ++ line :: post) st e)
  = inl SyntaxError_no_line_number.
Proof.
  intros [instructions' Hpre] [Hc Hm]%blank_line_no_match.
  unfold parse_assembly. simpl. rewrite parse_lines_app, Hpre. simpl.
  rewrite Hc. unfold parse_line. by rewrite Hm.
Qed.

(** X2 on the lines [(1) stop] and [(01) nonsense]: the second line carries
    the number 1 again and the parse ends with the duplicate error. *)
Lemma X2_duplicate_line_number_witness :
  parse_assembly (AssemblyParser_init repeated_number None default_ext)
  = inl SyntaxError_duplicate.
Proof.
  apply (X2_duplicate_line_number ["(1) stop" +:+ newline] []
           ("(01) nonsense" +:+ newline) 1 None default_ext).
  - eexists. by vm_compute.
  - by vm_compute.
  - apply (bool_decide_unpack _). by vm_compute.
Defined.

(** X3 on [(1) stop] followed by an empty line. *)
Lemma X3_blank_line_is_refused_witness :
  parse_assembly (AssemblyParser_init blank_at_end None default_ext)
  = inl SyntaxError_no_line_number.
Proof.
  apply (X3_blank_line_is_refused ["(1) stop" +:+ newline] [] newline
           None default_ext).
  - eexists. by vm_compute.
  - by vm_compute.
Defined.

(** X4.  When a parser made with no instructions parses its file without
    an error, the N instructions it holds are those of the lines 1, 2, ...,
    N of the file in this order: a line number has an instruction exactly
    when it is between 1 and N, and each instruction records the number of
    its line. *)
Theorem X4_parsed_program_is_numbered (self p : AssemblyParser) :
  instructions self = [] →
  parse_assembly self = inr p →
  Dict.keys (instructions p)
  = seqZ 1 (Z.of_nat (length (instructions p))) ∧
  line_numbers (file self) = Dict.keys (instructions p) ∧
  (∀ i, is_Some (Dict.get i (instructions p))
        ↔ 1 ≤ i ≤ Z.of_nat (length (instructions p))) ∧
  (∀ i inst, Dict.get i (instructions p) = Some inst → line_no inst = i).
Proof.
  intros Hempty. unfold parse_assembly. rewrite Hempty.
  destruct (parse_lines _ _ _) as [| instructions'] eqn:Hlines; [done |].
  destruct (numbering_ok 0 _) eqn:Hok; [| done]. intros [= <-]. simpl.
  apply numbering_ok_spec in Hok.
  apply parse_lines_success in Hlines as (added & -> & Hkeys & _ & Hall).
  simpl in *. unfold Dict.keys in Hok at 2. rewrite length_map in Hok.
  split; [done |]. split; [done |]. split.
  - intros i. rewrite get_is_Some_keys, Hok, elem_of_seqZ. lia.
  - intros i inst Hget%get_Some_elem_of.
    rewrite Forall_forall in Hall.
    destruct (Hall _ Hget) as (code & k & m & _ & Heq). simpl in Heq.
    subst inst.
    apply Instruction_init_line_no.
Qed.

(** X4 on the three lines of the jump example. *)
Lemma X4_parsed_program_is_numbered_witness :
  ∃ p, parse_assembly (AssemblyParser_init skip_increment x_is_zero default_ext)
       = inr p
       ∧ Dict.keys (instructions p) = [1; 2; 3]
       ∧ ∀ i, is_Some (Dict.get i (instructions p)) ↔ 1 ≤ i ≤ 3.
Proof.
  eexists. split; [by vm_compute |].
  match goal with
  | |- Dict.keys (instructions ?p) = _ ∧ _ =>
      destruct (X4_parsed_program_is_numbered
                  (AssemblyParser_init skip_increment x_is_zero default_ext) p)
        as (Hkeys & _ & Hget & _); [done | by vm_compute |]
  end.
  split; [exact Hkeys | exact Hget].
Defined.

(** ** The variable table *)

Lemma initial_variables_lookup names st x :
  initial_variables names st !! x
  = match st ≫= (λ m : gmap string (option Z), m !! x) with
    | Some v => Some v
    | None => if bool_decide (x ∈ names) then Some None else None
    end.
Proof.
  assert (Htable : (gset_to_gmap None names : gmap string (option Z)) !! x
                   = if bool_decide (x ∈ names) then Some None else None).
  { rewrite lookup_gset_to_gmap. by case_bool_decide; case_guard. }
  unfold initial_variables. destruct st as [m |]; simpl; [| done].
  destruct (decide (m = ∅)) as [-> | Hm].
  - rewrite bool_decide_eq_true_2 by done. by rewrite lookup_empty.
  - rewrite bool_decide_eq_false_2 by done. rewrite lookup_union, Htable.
    destruct (m !! x); by case_bool_decide.
Qed.

Lemma elem_of_mentioned x (d : list (Z * Instruction)) :
  x ∈ mentioned d ↔
  ∃ i inst, (i, inst) ∈ d ∧
            (value_one inst = Some x ∨ value_two inst = Some x
             ∨ value_three inst = Some x).
Proof.
  unfold mentioned, Dict.values.
  rewrite elem_of_list_to_set, list_elem_of_In, in_concat. split.
  - intros (l & Hl & Hx). apply in_map_iff in Hl as (inst0 & <- & Hin).
    apply in_map_iff in Hin as ([i inst] & <- & Hin).
    exists i, inst. split; [by apply list_elem_of_In |].
    apply list_elem_of_In in Hx. unfold payload in Hx. cbn [snd] in Hx.
    apply list_elem_of_omap in Hx as (o & Ho & Hox). simpl in Hox. subst o.
    rewrite !elem_of_cons, elem_of_nil in Ho.
    destruct Ho as [<- | [<- | [<- | []]]]; auto.
  - intros (i & inst & Hin & Hx). exists (payload inst). split.
    + apply in_map, in_map_iff. exists (i, inst). split; [done |].
      by apply list_elem_of_In.
    + apply list_elem_of_In. unfold payload. apply list_elem_of_omap.
      exists (Some x). split; [| done]. rewrite !elem_of_cons.
      destruct Hx as [-> | [-> | ->]]; auto.
Qed.

(** X5.  After a parse without an error a name is in the variable table
    exactly when the start state binds it or an instruction mentions it; a
    name the start state binds has the value given there, also when no
    instruction mentions it, and every other name of the table holds
    [None]. *)
Theorem X5_variable_table (self p : AssemblyParser) :
  parse_assembly self = inr p →
  (∀ x, x ∈ mentioned (instructions p) ↔
        ∃ i inst, (i, inst) ∈ instructions p ∧
                  (value_one inst = Some x ∨ value_two inst = Some x
                   ∨ value_three inst = Some x)) ∧
  (∀ x, variables p !! x
        = match start_state self ≫= (λ m : gmap string (option Z), m !! x) with
          | Some v => Some v
          | None =>
              if bool_decide (x ∈ mentioned (instructions p))
              then Some None else None
          end).
Proof.
  unfold parse_assembly.
  destruct (parse_lines _ _ _) as [| instructions']; [done |].
  destruct (numbering_ok 0 _); [| done]. intros [= <-]. simpl.
  split; [intros x; apply elem_of_mentioned |].
  intros x. apply initial_variables_lookup.
Qed.

(** X5 on the one line [(1) x = x + 1] with the start state q = 7: the
    table has [q] at 7 and [x] at [None], and no other name. *)
Lemma X5_variable_table_witness :
  ∃ p, parse_assembly (AssemblyParser_init increment_only q_is_seven default_ext)
       = inr p
       ∧ variables p !! "q" = Some (Some 7)
       ∧ variables p !! "x" = Some None
       ∧ variables p !! "y" = None.
Proof.
  eexists. split; [by vm_compute |].
  match goal with
  | |- variables ?p !! _ = _ ∧ _ =>
      destruct (X5_variable_table
                  (AssemblyParser_init increment_only q_is_seven default_ext) p)
        as [_ Hlookup]; [by vm_compute |]
  end.
  rewrite !Hlookup. by vm_compute.
Defined.

(** ** The tables of patterns *)

Lemma find_basic_in table code k m :
  find_basic table code = Some (k, m) →
  ∃ regex, (k, regex) ∈ table ∧ fullmatch regex code = Some m.
Proof.
  induction table as [| [k' regex] table IH]; simpl; [done |].
  destruct (fullmatch regex code) as [m' |] eqn:Hm.
  - intros [= -> ->]. exists regex. split; [by left | done].
  - intros (regex' & Hin & Hm')%IH. exists regex'. split; [by right | done].
Qed.

Lemma find_ext_in ext i table code k m :
  find_ext ext i table code = Some (k, m) →
  ∃ j regex, table !! j = Some (k, regex) ∧ fullmatch regex code = Some m
             ∧ i + Z.of_nat j ≤ ext.
Proof.
  revert i. induction table as [| [k' regex] table IH]; intros i; simpl; [done |].
  destruct (Z.leb_spec i ext); simpl; [| done].
  destruct (fullmatch regex code) as [m' |] eqn:Hm.
  - intros [= -> ->]. exists 0%nat, regex. repeat split; [done | lia].
  - intros (j & regex' & Hj & Hm' & Hle)%IH. exists (S j), regex'.
    repeat split; [done | done | lia].
Qed.

Lemma find_ext_mono ext ext' i table code r :
  ext ≤ ext' →
  find_ext ext i table code = Some r → find_ext ext' i table code = Some r.
Proof.
  intros Hle. revert i.
  induction table as [| [k regex] table IH]; intros i; simpl; [done |].
  destruct (Z.leb_spec i ext); simpl; [| done].
  destruct (Z.leb_spec i ext'); simpl; [| lia].
  destruct (fullmatch regex code); [done | apply IH].
Qed.

(** X6.  The statement forms are cumulative in the extension level: what is
    recognised under a level has a key of the base table, or is a Transfer
    and the level is at least 0, an Add and the level at least 1, or an
    AbsDiff and the level at least 2; and a statement recognised under a
    level is recognised the same under every higher level. *)
Theorem X6_extension_levels_are_cumulative
    (ext : Z) (code : string) (k : Key) (m : list string) :
  recognise ext code = Some (k, m) →
  (k ∈ base_keys ∨ (k = transfer ∧ 0 ≤ ext) ∨ (k = add ∧ 1 ≤ ext)
   ∨ (k = abs_diff ∧ 2 ≤ ext)) ∧
  (∀ ext', ext ≤ ext' → recognise ext' code = Some (k, m)).
Proof.
  unfold recognise.
  destruct (find_basic basic_instructions code) as [r |] eqn:Hbasic.
  - intros [= ->]. split; [| done]. left.
    apply find_basic_in in Hbasic as (regex & Hin & _).
    unfold basic_instructions in Hin. unfold base_keys.
    rewrite !elem_of_cons, elem_of_nil in Hin. rewrite !elem_of_cons.
    destruct Hin as [[= -> _] | [[= -> _] | [[= -> _] | [[= -> _]
                    | [[= -> _] | [[= -> _] | []]]]]]]; auto 10.
  - intros Hext. split; [| intros ext' Hle; by apply (find_ext_mono ext)].
    right. apply find_ext_in in Hext as (j & regex & Hj & _ & Hle).
    destruct j as [| [| [| j]]]; simpl in Hj; [| | | done];
      injection Hj as <- _; [left | right; left | right; right];
      (split; [done | lia]).
Qed.

(** X6 on the statement [x = x + y] under the level 1. *)
Lemma X6_extension_levels_are_cumulative_witness :
  recognise 1 "x = x + y" = Some (add, ["x"; "y"])
  ∧ recognise 2 "x = x + y" = Some (add, ["x"; "y"]).
Proof.
  assert (H : recognise 1 "x = x + y" = Some (add, ["x"; "y"])) by by vm_compute.
  split; [exact H |].
  apply (proj2 (X6_extension_levels_are_cumulative 1 "x = x + y" add
                  ["x"; "y"] H) 2).
  by vm_compute.
Defined.

Lemma match_items_groups p groups s groups' s' :
  match_items p groups s = Some (groups', s') →
  length groups' = (length groups + groups_of p)%nat.
Proof.
  revert groups s. induction p as [| it p IH]; intros groups s; simpl.
  - intros [= <- _]. lia.
  - destruct it.
    + destruct (Text.strip_prefix _ _); [apply IH | done].
    + destruct s as [| c s0]; [done |].
      destruct (Text.is_letter c); [| done].
      intros ->%IH. rewrite length_app. simpl. lia.
    + destruct groups as [| g groups0]; [done |].
      destruct (Text.strip_prefix _ _); [apply IH | done].
    + destruct (Text.span _ _) as [[| c d] s0]; [done |].
      intros ->%IH. rewrite length_app. simpl. lia.
    + destruct (Text.span _ _) as [r s0].
      intros ->%IH. rewrite length_app. simpl. lia.
Qed.

Lemma fullmatch_groups p s m :
  fullmatch p s = Some m → length m = groups_of p.
Proof.
  unfold fullmatch.
  destruct (match_items p [] s) as [[groups [| ? ?]] |] eqn:Hm; [| done | done].
  intros [= <-]. by apply match_items_groups in Hm.
Qed.

(** Each pattern of the tables captures the groups its key reads. *)
Lemma recognise_has_attributes ext code k m n :
  recognise ext code = Some (k, m) → has_attributes (Instruction_init n k m).
Proof.
  unfold recognise.
  destruct (find_basic basic_instructions code) as [r |] eqn:Hbasic.
  - intros [= ->]. apply find_basic_in in Hbasic as (regex & Hin & Hm).
    apply fullmatch_groups in Hm.
    unfold basic_instructions in Hin. rewrite !elem_of_cons, elem_of_nil in Hin.
    destruct Hin as [[= -> ->] | [[= -> ->] | [[= -> ->] | [[= -> ->]
                    | [[= -> ->] | [[= -> ->] | []]]]]]];
      simpl in Hm; repeat (destruct m as [| ? m]; try done);
      vm_compute; eauto.
  - intros (j & regex & Hj & Hm & _)%find_ext_in.
    apply fullmatch_groups in Hm.
    destruct j as [| [| [| j]]]; simpl in Hj; [| | | done];
      injection Hj as <- <-;
      simpl in Hm; repeat (destruct m as [| ? m]; try done);
      vm_compute; eauto.
Qed.

(** * Further properties of the run *)

Lemma elem_of_payload x inst :
  x ∈ payload inst ↔
  value_one inst = Some x ∨ value_two inst = Some x ∨ value_three inst = Some x.
Proof.
  unfold payload. rewrite list_elem_of_omap. split.
  - intros (o & Ho & Hox). simpl in Hox. subst o.
    rewrite !elem_of_cons, elem_of_nil in Ho.
    destruct Ho as [<- | [<- | [<- | []]]]; auto.
  - intros Hx. exists (Some x). split; [| done]. rewrite !elem_of_cons.
    destruct Hx as [-> | [-> | ->]]; auto.
Qed.

Lemma do_send_suspended limit instruction count t variables :
  match do_send (Suspended limit instruction count) t
          (λ g', Continue g' variables) with
  | Raise e => e = StopIteration
  | Break => False
  | Continue g' variables' =>
      g' = Suspended limit (t - 1) (count + 1) ∧ variables' = variables
      ∧ count + 1 ≤ limit
  end.
Proof.
  unfold do_send, send, after_yield, loop_head.
  destruct (Z.gtb_spec (count + 1) limit); [done |]. repeat split. lia.
Qed.

(** One pass of the body on an instruction that is ready: it raises only
    the errors of [run], it leaves the generator suspended, and it takes
    no name from the table. *)
Lemma body_ready i inst limit instruction count
    (variables : gmap string (option Z)) :
  has_attributes inst →
  (∀ x, x ∈ payload inst → is_Some (variables !! x)) →
  match body i inst (Suspended limit instruction count) variables with
  | Raise e => run_error e = true
  | Break => True
  | Continue g' variables' =>
      (∃ instruction' count', g' = Suspended limit instruction' count') ∧
      ∀ x, is_Some (variables !! x) → is_Some (variables' !! x)
  end.
Proof.
  intros Hattr Hnames.
  assert (Hone : ∀ x, value_one inst = Some x → is_Some (variables !! x)).
  { intros x Hx. apply Hnames, elem_of_payload. auto. }
  assert (Htwo : ∀ x, value_two inst = Some x → is_Some (variables !! x)).
  { intros x Hx. apply Hnames, elem_of_payload. auto. }
  assert (Hthree : ∀ x, value_three inst = Some x → is_Some (variables !! x)).
  { intros x Hx. apply Hnames, elem_of_payload. auto. }
  assert (Hinsert : ∀ x v y, is_Some (variables !! y) →
                             is_Some (<[x := v]> variables !! y)).
  { intros x v y Hy. destruct (decide (x = y)) as [-> |].
    - rewrite lookup_insert_eq. eauto.
    - by rewrite lookup_insert_ne. }
  assert (Hsend : ∀ t,
             match do_send (Suspended limit instruction count) t
                     (λ g', Continue g' variables) with
             | Raise e => run_error e = true
             | Break => True
             | Continue g' variables' =>
                 (∃ instruction' count',
                     g' = Suspended limit instruction' count') ∧
                 ∀ x, is_Some (variables !! x) → is_Some (variables' !! x)
             end).
  { intros t.
    pose proof (do_send_suspended limit instruction count t variables) as H.
    destruct (do_send _ _ _) as [e | | g' variables']; [by subst e | done |].
    destruct H as (-> & -> & _). eauto. }
  unfold has_attributes in Hattr. unfold body, getattr, getitem.
  destruct (key inst);
    repeat match goal with
           | H : _ ∧ _ |- _ => destruct H
           | H : is_Some (value_one inst) |- _ =>
               let x := fresh "x" in let E := fresh "E" in
               destruct H as [x E]; rewrite E;
               let Hv := fresh "Hv" in
               destruct (Hone x E) as [? Hv]; try rewrite Hv
           | H : is_Some (value_two inst) |- _ =>
               let x := fresh "y" in let E := fresh "E" in
               destruct H as [x E]; rewrite E;
               let Hv := fresh "Hv" in
               destruct (Htwo x E) as [? Hv]; try rewrite Hv
           | H : is_Some (value_three inst) |- _ =>
               let x := fresh "z" in let E := fresh "E" in
               destruct H as [x E]; rewrite E;
               let Hv := fresh "Hv" in
               destruct (Hthree x E) as [? Hv]; try rewrite Hv
           | H : is_Some (jump_to inst) |- _ =>
               let t := fresh "t" in destruct H as [t ->]
           end;
    try done;
    repeat match goal with
           | |- context [bool_decide ?P] => destruct (bool_decide P)
           | |- context [match ?o with Some _ => _ | None => _ end] =>
               is_var o; destruct o
           end;
    try done; try apply Hsend; eauto.
Qed.

Lemma run_loop_ready instructions fuel g variables r :
  ready instructions variables →
  run_loop fuel instructions g variables = Some r →
  ∀ e, ended r = Raised e → run_error e = true.
Proof.
  revert g variables r. induction fuel as [| fuel IH];
    intros g variables r Hready; [done |]. simpl.
  destruct (next g) as [[i |] g'] eqn:Hnext; [| by intros [= <-]].
  apply next_yield in Hnext as [(limit & count & -> & _) _].
  destruct (Dict.get i instructions) as [inst |] eqn:Hget;
    [| by intros [= <-] e [= <-]].
  destruct (Hready i inst Hget) as [Hattr Hnames].
  pose proof (body_ready i inst limit i count variables Hattr Hnames) as Hbody.
  destruct (body i inst _ variables) as [e0 | | g'' variables'].
  - by intros [= <-] e [= <-].
  - by intros [= <-].
  - destruct Hbody as [_ Hkeep].
    destruct (run_loop fuel instructions g'' variables') as [r' |] eqn:Hrun;
      [| done].
    intros [= <-]. simpl. apply (IH _ _ _ (λ j inst' Hj,
      conj (proj1 (Hready j inst' Hj))
           (λ x Hx, Hkeep x (proj2 (Hready j inst' Hj) x Hx))) Hrun).
Qed.

(** What the parser hands to [run] is ready. *)
Lemma parse_assembly_ready (self p : AssemblyParser) :
  instructions self = [] →
  parse_assembly self = inr p →
  ready (instructions p) (variables p).
Proof.
  intros Hempty. unfold parse_assembly. rewrite Hempty.
  destruct (parse_lines _ _ _) as [| instructions'] eqn:Hlines; [done |].
  destruct (numbering_ok 0 _); [| done]. intros [= Hp].
  apply parse_lines_success in Hlines as (added & -> & _ & _ & Hall).
  rewrite Forall_forall in Hall. subst p. simpl in *.
  intros i inst Hget%get_Some_elem_of. split.
  - destruct (Hall _ Hget) as (code & k & m & Hrec & Heq). simpl in Heq.
    subst inst. by apply (recognise_has_attributes (ext self) code).
  - intros x Hx%elem_of_payload. rewrite initial_variables_lookup.
    destruct (start_state self ≫= _); [done |].
    rewrite bool_decide_eq_true_2; [done |].
    apply elem_of_mentioned. by exists i, inst.
Qed.

(** X7.  A run of what the parser accepted always ends, and when it ends by
    an exception it is the error of an unknown line, of an uninitialised
    variable in an Increment or a Decrement, of arithmetic on [None], or
    the StopIteration of the generator: no instruction lacks an attribute
    that [run] reads and no name it mentions is missing from the table. *)
Theorem X7_run_raises_only_its_errors (self p : AssemblyParser) (limit : Z) :
  instructions self = [] →
  parse_assembly self = inr p →
  ready (instructions p) (variables p) ∧
  ∃ r, run_with_limit limit p = Some r
       ∧ ∀ e, ended r = Raised e → run_error e = true.
Proof.
  intros Hempty Hparse.
  pose proof (parse_assembly_ready self p Hempty Hparse) as Hready.
  split; [done |].
  destruct (run_total limit p) as [r Hr]. exists r. split; [done |].
  by apply (run_loop_ready _ _ _ _ _ Hready Hr).
Qed.

(** X7 on the one line [(1) x = x + 1] without a start state: the run ends
    by the error of the uninitialised variable. *)
Lemma X7_run_raises_only_its_errors_witness :
  ∃ p r, parse_assembly (AssemblyParser_init increment_only None default_ext)
         = inr p
         ∧ run p = Some r
         ∧ ended r = Raised (TypeError_inc 1)
         ∧ run_error (TypeError_inc 1) = true.
Proof.
  eexists.
  match goal with
  | |- ∃ r, _ = inr ?p ∧ _ =>
      destruct (X7_run_raises_only_its_errors
                  (AssemblyParser_init increment_only None default_ext) p
                  default_limit) as (_ & r & Hr & Herr);
        [done | by vm_compute |]
  end.
  exists r. split; [by vm_compute |]. split; [exact Hr |].
  assert (He : ended r = Raised (TypeError_inc 1)).
  { vm_compute in Hr. apply (inj Some) in Hr as <-. done. }
  split; [exact He | exact (Herr _ He)].
Defined.

(** ** The bound *)

Lemma run_loop_visited_bound instructions fuel g variables r :
  run_loop fuel instructions g variables = Some r →
  (length (visited r) < calls_left g)%nat.
Proof.
  revert g variables r. induction fuel as [| fuel IH];
    intros g variables r; [done |]. simpl.
  assert (Hpos : (0 < calls_left g)%nat) by (destruct g; simpl; lia).
  destruct (next g) as [[i |] g'] eqn:Hnext; [| by intros [= <-]].
  apply next_yield in Hnext as [_ Hlt].
  assert (1 < calls_left g)%nat by (destruct g'; simpl in *; lia).
  destruct (Dict.get i instructions) as [inst |]; [| by intros [= <-]].
  destruct (body i inst g' variables) as [e | | g'' variables'] eqn:Hbody;
    [by intros [= <-] | by intros [= <-] |].
  apply body_continue in Hbody.
  destruct (run_loop fuel instructions g'' variables') as [r' |] eqn:Hrun;
    [| done].
  intros [= <-]. simpl. apply IH in Hrun. lia.
Qed.

(** X8.  Under the bound [limit] a run makes at most [limit + 1] passes of
    its loop, 301 by default; under a negative bound it makes none and
    returns with the variables as they were. *)
Theorem X8_passes_are_bounded (limit : Z) (self : AssemblyParser) :
  ∃ r, run_with_limit limit self = Some r
       ∧ Z.of_nat (length (visited r)) ≤ Z.max 0 (limit + 1)
       ∧ (limit < 0 →
          r = {| ended := Exhausted; final := variables self; visited := [] |}).
Proof.
  destruct (run_total limit self) as [r Hr]. exists r. split; [done |]. split.
  - apply run_loop_visited_bound in Hr. simpl in Hr. lia.
  - intros Hneg. unfold run_with_limit in Hr. simpl in Hr.
    unfold loop_head in Hr. destruct (Z.gtb_spec 0 limit); [| lia].
    by injection Hr as <-.
Qed.

(** X8 on the counting loop under the bound -1 and under the default
    bound. *)
Lemma X8_passes_are_bounded_witness :
  ∃ p, parse_assembly (AssemblyParser_init counting_loop x_is_zero default_ext)
       = inr p
       ∧ run_with_limit (-1) p
         = Some {| ended := Exhausted; final := variables p; visited := [] |}
       ∧ ∃ r, run p = Some r ∧ Z.of_nat (length (visited r)) ≤ 301.
Proof.
  eexists. split; [by vm_compute |]. split.
  - match goal with
    | |- run_with_limit _ ?p = _ =>
        destruct (X8_passes_are_bounded (-1) p) as (r & Hr & _ & Hnone)
    end.
    rewrite Hr. f_equal. apply Hnone. lia.
  - match goal with
    | |- ∃ r, run ?p = _ ∧ _ =>
        destruct (X8_passes_are_bounded default_limit p) as (r & Hr & Hlen & _)
    end.
    exists r. split; [exact Hr | exact Hlen].
Defined.

(** ** Jumps *)

Lemma body_jumps i inst g (variables : gmap string (option Z)) t :
  jumps_to inst variables t →
  body i inst g variables = do_send g t (λ g', Continue g' variables).
Proof.
  intros [Ht [Hkey | (Hkey & x & Hx & Hv)]]; unfold body, getattr, getitem.
  - by rewrite Hkey, Ht.
  - by rewrite Hkey, Hx, Hv, Ht.
Qed.

Section Jumps.

Variable instructions : list (Z * Instruction).
Variable variables : gmap string (option Z).
Variables (g : generator) (i limit count t : Z) (inst : Instruction).

Hypothesis Hnext : next g = (Some i, Suspended limit i count).
Hypothesis Hget : Dict.get i instructions = Some inst.
Hypothesis Hjump : jumps_to inst variables t.

(** X9.  A jump taken at least two counts below the bound changes no
    variable; the loop goes on, the next line it looks up is the target,
    and the generator has counted the jump twice. *)
Theorem X9_jump_goes_to_its_target (fuel : nat) :
  count + 2 ≤ limit →
  run_loop (S fuel) instructions g variables
  = visit i <$> run_loop fuel instructions
                  (Suspended limit (t - 1) (count + 1)) variables
  ∧ next (Suspended limit (t - 1) (count + 1))
    = (Some t, Suspended limit t (count + 2)).
Proof.
  intros Hroom. split.
  - simpl. rewrite Hnext, Hget, (body_jumps _ _ _ _ t Hjump).
    unfold do_send, send, after_yield, loop_head.
    destruct (Z.gtb_spec (count + 1) limit); [lia | done].
  - simpl. unfold after_yield, loop_head.
    replace (t - 1 + 1) with t by lia.
    replace (count + 1 + 1) with (count + 2) by lia.
    destruct (Z.gtb_spec (count + 2) limit); [lia | done].
Qed.

(** X10.  A jump taken when the count of the generator is at the bound
    makes the generator return inside [send]: the run ends by the
    StopIteration exception, not by a return, the variables as they
    were. *)
Theorem X10_jump_at_the_bound_raises (fuel : nat) :
  count = limit →
  run_loop (S fuel) instructions g variables
  = Some {| ended := Raised StopIteration; final := variables;
            visited := [i] |}.
Proof.
  intros Hcount. simpl. rewrite Hnext, Hget, (body_jumps _ _ _ _ t Hjump).
  unfold do_send, send, after_yield, loop_head.
  destruct (Z.gtb_spec (count + 1) limit); [done | lia].
Qed.

(** X11.  A jump taken one count below the bound is the last pass of the
    loop: the run returns without an exception and without looking the
    target up, so also when the target does not exist. *)
Theorem X11_jump_below_the_bound_returns (fuel : nat) :
  count + 1 = limit →
  run_loop (S (S fuel)) instructions g variables
  = Some {| ended := Exhausted; final := variables; visited := [i] |}.
Proof.
  intros Hcount. cbn [run_loop].
  rewrite Hnext, Hget, (body_jumps _ _ _ _ t Hjump).
  unfold do_send, send, after_yield, loop_head.
  destruct (Z.gtb_spec (count + 1) limit); [lia |]. simpl.
  unfold after_yield, loop_head.
  destruct (Z.gtb_spec (count + 1 + 1) limit); [done | lia].
Qed.

End Jumps.

(** X9 on the one line [(1) goto 99] under the default bound: after the
    first pass the loop goes on and the generator is next asked for
    line 99, at the count 2. *)
Lemma X9_jump_goes_to_its_target_witness :
  ∃ p inst,
    parse_assembly (AssemblyParser_init jump_nowhere None default_ext) = inr p
    ∧ Dict.get 1 (instructions p) = Some inst
    ∧ jumps_to inst (variables p) 99
    ∧ run p = visit 1 <$> run_loop (Z.to_nat 301) (instructions p)
                            (Suspended 300 98 1) (variables p)
    ∧ next (Suspended 300 98 1) = (Some 99, Suspended 300 99 2).
Proof.
  eexists _, _. split; [by vm_compute |]. split; [by vm_compute |].
  match goal with
  | |- jumps_to ?inst (variables ?p) _ ∧ _ =>
      assert (Hjump : jumps_to inst (variables p) 99)
        by (split; [by vm_compute | left; by vm_compute]);
      split; [exact Hjump |];
      apply (X9_jump_goes_to_its_target (instructions p) (variables p)
               (instruction_generator default_limit) 1 300 0 99 inst
               eq_refl eq_refl Hjump (Z.to_nat 301))
  end.
  by vm_compute.
Defined.

(** X10 on the one line [(1) goto 99] under the bound 0: the first pass is
    at the bound and the run ends by StopIteration. *)
Lemma X10_jump_at_the_bound_raises_witness :
  ∃ p inst,
    parse_assembly (AssemblyParser_init jump_nowhere None default_ext) = inr p
    ∧ Dict.get 1 (instructions p) = Some inst
    ∧ jumps_to inst (variables p) 99
    ∧ run_with_limit 0 p
      = Some {| ended := Raised StopIteration; final := variables p;
                visited := [1] |}.
Proof.
  eexists _, _. split; [by vm_compute |]. split; [by vm_compute |].
  match goal with
  | |- jumps_to ?inst (variables ?p) _ ∧ _ =>
      assert (Hjump : jumps_to inst (variables p) 99)
        by (split; [by vm_compute | left; by vm_compute]);
      split; [exact Hjump |];
      apply (X10_jump_at_the_bound_raises (instructions p) (variables p)
               (instruction_generator 0) 1 0 0 99 inst
               eq_refl eq_refl Hjump (Z.to_nat 1) eq_refl)
  end.
Defined.

(** X11 on the one line [(1) goto 99] under the bound 1: the run returns
    after the first pass although line 99 does not exist. *)
Lemma X11_jump_below_the_bound_returns_witness :
  ∃ p inst,
    parse_assembly (AssemblyParser_init jump_nowhere None default_ext) = inr p
    ∧ Dict.get 1 (instructions p) = Some inst
    ∧ jumps_to inst (variables p) 99
    ∧ Dict.get 99 (instructions p) = None
    ∧ run_with_limit 1 p
      = Some {| ended := Exhausted; final := variables p; visited := [1] |}.
Proof.
  eexists _, _. split; [by vm_compute |]. split; [by vm_compute |].
  match goal with
  | |- jumps_to ?inst (variables ?p) _ ∧ _ =>
      assert (Hjump : jumps_to inst (variables p) 99)
        by (split; [by vm_compute | left; by vm_compute]);
      split; [exact Hjump |]; split; [by vm_compute |];
      apply (X11_jump_below_the_bound_returns (instructions p) (variables p)
               (instruction_generator 1) 1 1 0 99 inst
               eq_refl eq_refl Hjump (Z.to_nat 1) eq_refl)
  end.
Defined.

(** ** What a run changes *)

(** A pass of the body changes at most the destination of its instruction
    and takes no name from the table. *)
Lemma body_frame i inst g (variables : gmap string (option Z)) g' variables' y :
  body i inst g variables = Continue g' variables' →
  (destination inst ≠ Some y → variables' !! y = variables !! y) ∧
  (is_Some (variables !! y) → is_Some (variables' !! y)).
Proof.
  assert (Hinsert : ∀ x v, (Some x ≠ Some y →
                            <[x := v]> variables !! y = variables !! y) ∧
                           (is_Some (variables !! y) →
                            is_Some (<[x := v]> variables !! y))).
  { intros x v. split.
    - intros Hne. apply lookup_insert_ne. congruence.
    - intros Hy. destruct (decide (x = y)) as [-> |].
      + rewrite lookup_insert_eq. eauto.
      + by rewrite lookup_insert_ne. }
  unfold body, destination, getattr, getitem, do_send.
  destruct (key inst);
    repeat match goal with
           | |- context [match ?o with Some _ => _ | None => _ end] =>
               destruct o eqn:?
           | |- context [bool_decide ?P] => destruct (bool_decide P)
           | |- context [send ?g0 ?t] => destruct (send g0 t) as [[? | ?] ?]
           end;
    try done; intros [= <- <-]; try done; apply Hinsert.
Qed.

Lemma run_loop_frame instructions fuel g (variables : gmap string (option Z)) r y :
  run_loop fuel instructions g variables = Some r →
  ((∀ i inst, Dict.get i instructions = Some inst → destination inst ≠ Some y) →
   final r !! y = variables !! y) ∧
  (is_Some (variables !! y) → is_Some (final r !! y)).
Proof.
  revert g variables r. induction fuel as [| fuel IH];
    intros g variables r; [done |]. simpl.
  destruct (next g) as [[i |] g']; [| by intros [= <-]].
  destruct (Dict.get i instructions) as [inst |] eqn:Hget;
    [| by intros [= <-]].
  destruct (body i inst g' variables) as [e | | g'' variables'] eqn:Hbody;
    [by intros [= <-] | by intros [= <-] |].
  destruct (run_loop fuel instructions g'' variables') as [r' |] eqn:Hrun;
    [| done].
  intros [= <-]. simpl.
  destruct (body_frame _ _ _ _ _ _ y Hbody) as [Hsame Hkeep].
  destruct (IH _ _ _ Hrun) as [Hsame' Hkeep']. split.
  - intros Hno. rewrite (Hsame' Hno). apply Hsame. by apply (Hno i).
  - auto.
Qed.

(** X12.  A run changes only variables that are the destination of an
    instruction of the program (of an Increment, a Decrement, a SetZero, a
    Transfer, an Add or an AbsDiff): every other name keeps what it held,
    however the run ends; and no name leaves the table. *)
Theorem X12_run_changes_destinations_only (limit : Z) (self : AssemblyParser) :
  ∃ r, run_with_limit limit self = Some r ∧
       (∀ y, (∀ i inst, Dict.get i (instructions self) = Some inst →
                        destination inst ≠ Some y) →
             final r !! y = variables self !! y) ∧
       (∀ y, is_Some (variables self !! y) → is_Some (final r !! y)).
Proof.
  destruct (run_total limit self) as [r Hr]. exists r. split; [done |].
  split; intros y; by apply (run_loop_frame _ _ _ _ _ y Hr).
Qed.

(** X12 on the counting loop from x = 0 and q = 7: the run leaves [q]
    at 7. *)
Lemma X12_run_changes_destinations_only_witness :
  ∃ p r, parse_assembly
           (AssemblyParser_init counting_loop x_is_zero_q_is_seven default_ext)
         = inr p
         ∧ run p = Some r
         ∧ final r !! "q" = Some (Some 7).
Proof.
  eexists.
  match goal with
  | |- ∃ r, _ = inr ?p ∧ _ =>
      destruct (X12_run_changes_destinations_only default_limit p)
        as (r & Hr & Hsame & _)
  end.
  exists r. split; [by vm_compute |]. split; [exact Hr |].
  rewrite Hsame; [by vm_compute |].
  intros i inst Hget%get_Some_elem_of. cbn [instructions] in Hget.
  rewrite !elem_of_cons, elem_of_nil in Hget.
  destruct Hget as [[= -> ->] | [[= -> ->] | []]]; by vm_compute.
Defined.

(** ** What the end of a run tells *)

Lemma last_cons_Some {A} (i j : A) (l : list A) :
  last l = Some j → last (i :: l) = Some j.
Proof. by destruct l. Qed.

Lemma body_break i inst g (variables : gmap string (option Z)) :
  body i inst g variables = Break → key inst = halt.
Proof.
  unfold body, getattr, getitem, do_send.
  destruct (key inst);
    repeat match goal with
           | |- context [match ?o with Some _ => _ | None => _ end] =>
               destruct o eqn:?
           | |- context [bool_decide ?P] => destruct (bool_decide P)
           | |- context [send ?g0 ?t] => destruct (send g0 t) as [[? | ?] ?]
           end;
    done.
Qed.

Lemma send_raise g t e g' :
  send g t = (inl e, g') → e = StopIteration ∨ e = TypeError_send.
Proof.
  destruct g as [limit | limit instruction count |]; simpl.
  - intros [= <- _]. by right.
  - destruct (after_yield _ _ _ _) as [[j |] g0]; [done |].
    intros [= <- _]. by left.
  - intros [= <- _]. by left.
Qed.

(** The errors of the body that carry a line carry the line of the pass,
    and come from an Increment or a Decrement of a variable that holds
    [None]; the body never raises the error of the unknown line. *)
Lemma body_raise i inst g (variables : gmap string (option Z)) e :
  body i inst g variables = Raise e →
  match e with
  | KeyError_line _ => False
  | TypeError_inc j =>
      j = i ∧ key inst = inc
      ∧ ∃ x, value_one inst = Some x ∧ variables !! x = Some None
  | TypeError_dec j =>
      j = i ∧ key inst = dec
      ∧ ∃ x, value_one inst = Some x ∧ variables !! x = Some None
  | _ => True
  end.
Proof.
  unfold body, getattr, getitem, do_send.
  destruct (key inst) eqn:Hkey;
    repeat match goal with
           | |- context [match ?o with Some _ => _ | None => _ end] =>
               destruct o eqn:?
           | |- context [bool_decide ?P] => destruct (bool_decide P)
           | |- context [send ?g0 ?t] =>
               let E := fresh "E" in
               destruct (send g0 t) as [[? | ?] ?] eqn:E;
               [apply send_raise in E as [-> | ->] |]
           end;
    try done; intros [= <-]; try done; eauto.
Qed.

Lemma run_loop_cause instructions fuel g (variables : gmap string (option Z)) r :
  run_loop fuel instructions g variables = Some r →
  (ended r = Halted →
   ∃ i inst, last (visited r) = Some i
             ∧ Dict.get i instructions = Some inst ∧ key inst = halt) ∧
  (∀ j, ended r = Raised (KeyError_line j) →
        last (visited r) = Some j ∧ Dict.get j instructions = None) ∧
  (∀ j k, (k = inc ∧ ended r = Raised (TypeError_inc j))
          ∨ (k = dec ∧ ended r = Raised (TypeError_dec j)) →
          last (visited r) = Some j
          ∧ ∃ inst x, Dict.get j instructions = Some inst ∧ key inst = k
                      ∧ value_one inst = Some x ∧ final r !! x = Some None).
Proof.
  revert g variables r. induction fuel as [| fuel IH];
    intros g variables r; [done |]. simpl.
  destruct (next g) as [[i |] g'].
  2: { intros [= <-]; simpl. split; [done |]. split; [done |].
       by intros j k [[_ ?] | [_ ?]]. }
  destruct (Dict.get i instructions) as [inst |] eqn:Hget.
  2: { intros [= <-]; simpl. split; [done |]. split.
       - by intros j [= <-].
       - by intros j k [[_ ?] | [_ ?]]. }
  destruct (body i inst g' variables) as [e | | g'' variables'] eqn:Hbody.
  - intros [= <-]; simpl. apply body_raise in Hbody.
    split; [done |]. split.
    + intros j [= ->]. done.
    + intros j k [[-> [= ->]] | [-> [= ->]]];
        destruct Hbody as (-> & Hkey & x & Hx & Hv); eauto 10.
  - intros [= <-]; simpl. apply body_break in Hbody.
    split; [eauto |]. split; [done |]. by intros j k [[_ ?] | [_ ?]].
  - destruct (run_loop fuel instructions g'' variables') as [r' |] eqn:Hrun;
      [| done].
    intros [= <-]; simpl. destruct (IH _ _ _ Hrun) as (Hhalt & Hline & Hvar).
    split; [| split].
    + intros (i' & inst' & Hl & ?)%Hhalt. exists i', inst'.
      split; [by apply last_cons_Some | done].
    + intros j [Hl ?]%Hline. split; [by apply last_cons_Some | done].
    + intros j k [Hl ?]%Hvar. split; [by apply last_cons_Some | done].
Qed.

(** X13.  How a run ends tells what happened in its last pass: it ends by
    the halt only on a Halt instruction; the error of the unknown line
    names the line looked up last, and that line has no instruction; the
    error of an uninitialised variable names the line looked up last, which
    holds an Increment (for the one error) or a Decrement (for the other)
    of a variable that holds [None] at the end. *)
Theorem X13_end_names_its_cause (limit : Z) (self : AssemblyParser) :
  ∃ r, run_with_limit limit self = Some r ∧
    (ended r = Halted →
     ∃ i inst, last (visited r) = Some i
               ∧ Dict.get i (instructions self) = Some inst
               ∧ key inst = halt) ∧
    (∀ j, ended r = Raised (KeyError_line j) →
          last (visited r) = Some j ∧ Dict.get j (instructions self) = None) ∧
    (∀ j k, (k = inc ∧ ended r = Raised (TypeError_inc j))
            ∨ (k = dec ∧ ended r = Raised (TypeError_dec j)) →
            last (visited r) = Some j
            ∧ ∃ inst x, Dict.get j (instructions self) = Some inst
                        ∧ key inst = k ∧ value_one inst = Some x
                        ∧ final r !! x = Some None).
Proof.
  destruct (run_total limit self) as [r Hr]. exists r. split; [done |].
  by apply (run_loop_cause _ _ _ _ _ Hr).
Qed.

(** X13 on the three lines of the jump example from x = 0: the run ends by
    the halt, and the line looked up last holds a Halt. *)
Lemma X13_end_names_its_cause_witness :
  ∃ p r, parse_assembly (AssemblyParser_init skip_increment x_is_zero default_ext)
         = inr p
         ∧ run p = Some r
         ∧ ended r = Halted
         ∧ ∃ i inst, last (visited r) = Some i
                     ∧ Dict.get i (instructions p) = Some inst
                     ∧ key inst = halt.
Proof.
  eexists.
  match goal with
  | |- ∃ r, _ = inr ?p ∧ _ =>
      destruct (X13_end_names_its_cause default_limit p)
        as (r & Hr & Hhalt & _)
  end.
  exists r. split; [by vm_compute |]. split; [exact Hr |].
  assert (He : ended r = Halted).
  { vm_compute in Hr. apply (inj Some) in Hr as <-. done. }
  split; [exact He | exact (Hhalt He)].
Defined.

(** * Further properties of the statement forms *)

(** Runs the patterns of the two tables on a text whose letters are
    variables: literal characters are compared by computation, a variable
    character by cases. *)
Ltac run_patterns :=
  unfold recognise, step_text, transfer_text, add_text, assign, letter,
    basic_instructions, ext_instructions;
  cbn [find_basic find_ext]; unfold fullmatch;
  repeat (cbn [find_basic find_ext match_items Text.strip_prefix Text.span
               app negb];
    match goal with
    | H : Text.is_letter ?c = true |- context [Text.is_letter ?c] => rewrite H
    | |- context [Ascii.eqb ?x ?x] => rewrite (Ascii.eqb_refl x)
    | H : ?x ≠ ?y |- context [Ascii.eqb ?x ?y] =>
        rewrite (proj2 (Ascii.eqb_neq x y) H)
    | |- context [Ascii.eqb ?x ?y] =>
        first [ is_var x | is_var y ];
        let E := fresh "E" in
        destruct (Ascii.eqb_spec x y) as [E | E];
        [ first [subst x | subst y] | ]
    | |- context [Ascii.eqb ?x ?y] =>
        let v := eval vm_compute in (Ascii.eqb x y) in
        change (Ascii.eqb x y) with v
    | |- context [Text.is_digit ?c] =>
        let v := eval vm_compute in (Text.is_digit c) in
        change (Text.is_digit c) with v
    | |- context [Text.is_letter ?c] =>
        let v := eval vm_compute in (Text.is_letter c) in
        change (Text.is_letter c) with v
    | |- context [(?i <=? ?e)%Z] => destruct (Z.leb_spec i e)
    end);
  try done; try lia.

Section Statements.

Variables (a b c : ascii) (ext : Z).
Hypothesis Ha : Text.is_letter a = true.
Hypothesis Hb : Text.is_letter b = true.
Hypothesis Hc : Text.is_letter c = true.

Lemma recognise_step_same sign k :
  (sign = "+"%char ∧ k = inc) ∨ (sign = "-"%char ∧ k = dec) →
  recognise ext (step_text a a sign) = Some (k, [letter a]).
Proof using Ha. intros [[-> ->] | [-> ->]]; run_patterns. Qed.

Lemma recognise_step_other sign :
  sign = "+"%char ∨ sign = "-"%char →
  a ≠ b → recognise ext (step_text a b sign) = None.
Proof using Ha Hb. intros [-> | ->] Hab; run_patterns. Qed.

(** X14.  A statement [a = b + 1] (or [a = b - 1]) with letters [a] and [b]
    is an Increment (a Decrement) of [a] when [b] is the same letter as
    [a], under every extension level; with two different letters it is no
    statement under any level. *)
Theorem X14_step_needs_the_same_variable :
  recognise ext (step_text a b "+")
  = (if decide (a = b) then Some (inc, [letter a]) else None) ∧
  recognise ext (step_text a b "-")
  = (if decide (a = b) then Some (dec, [letter a]) else None).
Proof using Ha Hb.
  destruct (decide (a = b)) as [<- | Hab].
  - split; apply recognise_step_same; auto.
  - split; apply recognise_step_other; auto.
Qed.

(** X15.  A statement [a = b] with letters [a] and [b], the same letter or
    two different ones, is a Transfer to [a] from [b] under every extension
    level from 0 on, and no statement under a negative level. *)
Theorem X15_transfer_of_any_two_letters :
  recognise ext (transfer_text a b)
  = (if 0 <=? ext then Some (transfer, [letter a; letter b]) else None).
Proof using Ha Hb. run_patterns. Qed.

(** X16.  A statement [a = b + c] with letters [a], [b] and [c] is an Add
    to [a] of [c] when [b] is the same letter as [a] and the extension
    level is at least 1; otherwise it is no statement: not under the level
    0, and under no level when [a] and [b] differ. *)
Theorem X16_add_needs_the_same_variable_and_level_one :
  recognise ext (add_text a b c)
  = (if decide (a = b)
     then if 1 <=? ext then Some (add, [letter a; letter c]) else None
     else None).
Proof using Ha Hb Hc.
  destruct (decide (a = b)) as [<- | Hab]; run_patterns.
Qed.

End Statements.

(** X14 on the letters [x] and [y] under the level 0: [x = x + 1] and
    [x = x - 1] are an Increment and a Decrement, [x = y + 1] is refused. *)
Lemma X14_step_needs_the_same_variable_witness :
  (recognise 0 (step_text "x" "x" "+") = Some (inc, [letter "x"])
   ∧ recognise 0 (step_text "x" "x" "-") = Some (dec, [letter "x"]))
  ∧ recognise 0 (step_text "x" "y" "+") = None.
Proof.
  split.
  - exact (X14_step_needs_the_same_variable "x" "x" 0 eq_refl eq_refl).
  - exact (proj1 (X14_step_needs_the_same_variable "x" "y" 0 eq_refl eq_refl)).
Defined.

(** X15 on the letter [x] twice under the level 0: [x = x] is a Transfer
    to [x] from [x]. *)
Lemma X15_transfer_of_any_two_letters_witness :
  recognise 0 (transfer_text "x" "x") = Some (transfer, [letter "x"; letter "x"]).
Proof.
  exact (X15_transfer_of_any_two_letters "x" "x" 0 eq_refl eq_refl).
Defined.

(** X16 on [x = x + y]: an Add under the level 1, refused under the
    level 0. *)
Lemma X16_add_needs_the_same_variable_and_level_one_witness :
  recognise 1 (add_text "x" "x" "y") = Some (add, [letter "x"; letter "y"])
  ∧ recognise 0 (add_text "x" "x" "y") = None.
Proof.
  split.
  - exact (X16_add_needs_the_same_variable_and_level_one
             "x" "x" "y" 1 eq_refl eq_refl eq_refl).
  - exact (X16_add_needs_the_same_variable_and_level_one
             "x" "x" "y" 0 eq_refl eq_refl eq_refl).
Defined.

(** * Further properties of the text of a line *)










(** * Programs without jumps *)

Lemma body_no_jump i inst g (variables : gmap string (option Z)) g' variables' :
  no_jump inst →
  body i inst g variables = Continue g' variables' → g' = g.
Proof.
  intros [Hjump Hzero]. unfold body, getattr, getitem.
  destruct (key inst); try done;
    repeat match goal with
           | |- context [match ?o with Some _ => _ | None => _ end] =>
               destruct o eqn:?
           end;
    try done; by intros [= <- _].
Qed.

Lemma run_loop_in_order instructions fuel g (variables : gmap string (option Z))
    r limit i count :
  (∀ j inst, Dict.get j instructions = Some inst → no_jump inst) →
  next g = loop_head limit i count →
  run_loop fuel instructions g variables = Some r →
  visited r = seqZ i (Z.of_nat (length (visited r))).
Proof.
  intros Hno. revert g variables r i count.
  induction fuel as [| fuel IH]; intros g variables r i count Hnext; [done |].
  simpl. rewrite Hnext. unfold loop_head.
  destruct (Z.gtb_spec count limit); [by intros [= <-] |].
  destruct (Dict.get i instructions) as [inst |] eqn:Hget;
    [| by intros [= <-]].
  destruct (body i inst _ variables) as [e | | g'' variables'] eqn:Hbody;
    [by intros [= <-] | by intros [= <-] |].
  apply body_no_jump in Hbody as ->; [| by apply (Hno i)].
  destruct (run_loop fuel instructions _ variables') as [r' |] eqn:Hrun;
    [| done].
  intros [= <-]. simpl visited. simpl length.
  rewrite (seqZ_cons i) by lia.
  replace (Z.pred (Z.of_nat (S (length (visited r')))))
    with (Z.of_nat (length (visited r'))) by lia.
  f_equal. by apply (IH _ _ _ (Z.succ i) (count + 1)) in Hrun.
Qed.

(** X19.  A run of a program that has no Jump and no JumpIfZero looks up
    the lines 1, 2, 3, ... in this order, one after the other, for as long
    as it lasts. *)
Theorem X19_without_jumps_lines_run_in_order
    (limit : Z) (self : AssemblyParser) :
  (∀ i inst, Dict.get i (instructions self) = Some inst → no_jump inst) →
  ∃ r, run_with_limit limit self = Some r
       ∧ visited r = seqZ 1 (Z.of_nat (length (visited r))).
Proof.
  intros Hno. destruct (run_total limit self) as [r Hr]. exists r.
  split; [done |].
  by apply (run_loop_in_order (instructions self) _
              (instruction_generator limit) _ _ limit 1 0 Hno eq_refl Hr).
Qed.

(** X19 on two increments, two decrements and a stop from x = 0: the run
    looks up the lines 1 to 5 in order. *)
Lemma X19_without_jumps_lines_run_in_order_witness :
  ∃ p, parse_assembly (AssemblyParser_init up_and_down x_is_zero default_ext)
       = inr p
       ∧ ∃ r, run p = Some r ∧ visited r = [1; 2; 3; 4; 5].
Proof.
  eexists. split; [by vm_compute |].
  match goal with
  | |- ∃ r, run ?p = _ ∧ _ =>
      destruct (X19_without_jumps_lines_run_in_order default_limit p)
        as (r & Hr & Hv)
  end.
  - intros i inst Hget%get_Some_elem_of. cbn [instructions] in Hget.
    rewrite !elem_of_cons, elem_of_nil in Hget.
    destruct Hget as [[= -> ->] | [[= -> ->] | [[= -> ->] | [[= -> ->]
                     | [[= -> ->] | []]]]]]; by vm_compute.
  - exists r. split; [exact Hr |].
    rewrite Hv. vm_compute in Hr. apply (inj Some) in Hr as <-. done.
Defined.
